(** * exitmap [command.py]: running commands and Python functions over Tor

    A shallow embedding of [src/command.py] (the closure returned by
    [run_python_over_tor], and the class [Command] with [invoke_process] and
    [execute]) together with the properties of its natural-language
    specification.

    Python byte strings are [list ascii]; the interpreter's global state
    ([socket.socket], the [torsocks] module attributes, [os.environ], the
    queue objects, the logger) is an explicit record that every operation
    takes and returns; exceptions are an explicit outcome. *)

From Stdlib Require Import Ascii String ZArith.
From stdpp Require Import base list gmap strings.

Open Scope list_scope.

(** ** Byte strings *)

Abbreviation bytes := (list ascii).

Definition b (s : string) : bytes := list_ascii_of_string s.

Definition is_digit (c : ascii) : bool :=
  let n := nat_of_ascii c in (48 <=? n)%nat && (n <=? 57)%nat.

Definition not_colon (c : ascii) : bool :=
  negb (Ascii.eqb c ":"%char).

(** Python's [str.strip()] whitespace: space, [\t], [\n], [\v], [\f], [\r]. *)
Definition is_space (c : ascii) : bool :=
  let n := nat_of_ascii c in
  (n =? 32)%nat || ((9 <=? n)%nat && (n <=? 13)%nat).

Fixpoint lstrip (s : bytes) : bytes :=
  match s with
  | c :: s' => if is_space c then lstrip s' else s
  | [] => []
  end.

Definition rstrip (s : bytes) : bytes := rev (lstrip (rev s)).

Definition strip (s : bytes) : bytes := rstrip (lstrip s).

(** [int(port)] on a string of decimal digits. *)
Definition digit_val (c : ascii) : Z := Z.of_nat (nat_of_ascii c) - 48.

Definition int_of_digits (s : bytes) : Z :=
  fold_left (fun acc c => 10 * acc + digit_val c)%Z s 0%Z.

(** ** Regular expressions of the shape used by [invoke_process]

    The pattern is a sequence of literal pieces and greedy repetitions of a
    character class, one of which is the capture group. *)

Inductive atom :=
| Lit (t : bytes)
| Rep (cls : ascii -> bool) (lo : nat) (hi : option nat).

Inductive node :=
| Plain (a : atom)
| Group (a : atom).

Definition regex := list node.

Definition node_atom (n : node) : atom :=
  match n with Plain a | Group a => a end.

Definition is_group (n : node) : bool :=
  match n with Plain _ => false | Group _ => true end.

Fixpoint starts_with (t s : bytes) : bool :=
  match t, s with
  | [], _ => true
  | c :: t', d :: s' => Ascii.eqb c d && starts_with t' s'
  | _ :: _, [] => false
  end.

(** Length of the longest prefix of [s] whose characters are all in [cls]. *)
Fixpoint span (cls : ascii -> bool) (s : bytes) : nat :=
  match s with
  | c :: s' => if cls c then S (span cls s') else 0
  | [] => 0
  end.

(** Greedy choice with backtracking: try [k], then [k-1], ... down to [lo]. *)
Fixpoint backtrack {R} (k lo : nat) (f : nat -> option R) : option R :=
  match f k with
  | Some r => Some r
  | None =>
      match k with
      | S k' => if (lo <=? k')%nat then backtrack k' lo f else None
      | O => None
      end
  end.

Definition greedy_max (cls : ascii -> bool) (hi : option nat) (s : bytes) : nat :=
  match hi with
  | Some h => Nat.min h (span cls s)
  | None => span cls s
  end.

(** Match [re] at the start of [s]; [cap] is the text captured so far. *)
Fixpoint match_here (re : regex) (s : bytes) (cap : option bytes)
  : option (option bytes) :=
  match re with
  | [] => Some cap
  | n :: re' =>
      match node_atom n with
      | Lit t =>
          if starts_with t s
          then match_here re' (drop (length t) s)
                 (if is_group n then Some t else cap)
          else None
      | Rep cls lo hi =>
          let m := greedy_max cls hi s in
          if (lo <=? m)%nat
          then backtrack m lo (fun k =>
                 match_here re' (drop k s)
                   (if is_group n then Some (take k s) else cap))
          else None
      end
  end.

(** [re.search]: the leftmost position at which the pattern matches. *)
Fixpoint search (re : regex) (s : bytes) : option (option bytes) :=
  match match_here re s None with
  | Some c => Some c
  | None =>
      match s with
      | _ :: s' => search re s'
      | [] => None
      end
  end.

(** Modelled from the spec: [util.extract_pattern(line, pattern)] is not
    part of the sources at hand.  The specification describes it as the
    Output Pattern Matcher: a pure function that searches [line] for
    [pattern] and returns the capture group of the first occurrence, or
    nothing when the pattern does not occur. *)
Definition extract_pattern (line : bytes) (pattern : regex) : option bytes :=
  match search pattern line with
  | Some (Some g) => Some g
  | _ => None
  end.

(** The pattern literal of [invoke_process]:
    ["Connection on fd [0-9]+ originating from [^:]+:([0-9]{1,5})"]. *)
Definition lit_conn : bytes := b "Connection on fd ".
Definition lit_orig : bytes := b " originating from ".
Definition lit_colon : bytes := b ":".

Definition pattern : regex :=
  [ Plain (Lit lit_conn);
    Plain (Rep is_digit 1 None);
    Plain (Lit lit_orig);
    Plain (Rep not_colon 1 None);
    Plain (Lit lit_colon);
    Group (Rep is_digit 1 (Some 5)) ].

(** Python truthiness of the value bound to [port]: [None] and the empty
    string are false. *)
Definition truthy (port : option bytes) : bool :=
  match port with
  | Some (_ :: _) => true
  | _ => false
  end.

(** ** Interpreter state *)

(** Values that the global [socket.socket] may be bound to. *)
Inductive socket_ctor :=
| real_socket
| torsocket
| other_socket (n : nat).

(** A circuit identifier is opaque: an integer or a string. *)
Inductive circuit_id :=
| CircInt (n : Z)
| CircStr (s : string).

(** The item put on the queue: [[circ_id, (address, port)]]. *)
Definition Event : Type := circuit_id * (string * Z).

Inductive exn :=
| OSError (errno : Z)
| SOCKSv5Error (msg : string)
| AttributeError (msg : string)
| OtherError (name : string).

Inductive outcome (A : Type) :=
| Ret (a : A)
| Raise (e : exn).
Arguments Ret {A} a.
Arguments Raise {A} e.

Inductive level := Debug | Info.

Inductive log_msg :=
| MsgErr (e : exn)
| MsgInvoking (command : list string) (env : gmap string string)
| MsgTempFile (name : string)
| MsgKilling (timeout : Z).

(** What an observer of one run sees, in order: every [queue.put] with the
    value [socket.socket] had at that instant, and every call of the output
    callback. *)
Inductive action :=
| APut (q : nat) (ev : Event) (sock : socket_ctor)
| ACallback (line : bytes).

Record World := mkWorld {
  socket_socket : socket_ctor;
  torsocks_proxy : option (string * Z);
  torsocks_queue : option nat;
  torsocks_circ_id : option circuit_id;
  queues : gmap nat (list Event);
  os_environ : gmap string string;
  log_records : list (level * log_msg);
  trace : list action;
  killed : list (list string)
}.

Definition set_socket (c : socket_ctor) (w : World) : World :=
  mkWorld c (torsocks_proxy w) (torsocks_queue w) (torsocks_circ_id w)
    (queues w) (os_environ w) (log_records w) (trace w) (killed w).

(** Modelled from the spec: [torsocks.set_default_proxy] belongs to the
    [torsocks] module, which is not part of the sources at hand; the
    specification has it record the active proxy endpoint of the router. *)
Definition set_default_proxy (host : string) (port : Z) (w : World) : World :=
  mkWorld (socket_socket w) (Some (host, port)) (torsocks_queue w)
    (torsocks_circ_id w) (queues w) (os_environ w) (log_records w) (trace w) (killed w).

Definition set_torsocks_queue (q : nat) (w : World) : World :=
  mkWorld (socket_socket w) (torsocks_proxy w) (Some q) (torsocks_circ_id w)
    (queues w) (os_environ w) (log_records w) (trace w) (killed w).

Definition set_torsocks_circ_id (c : circuit_id) (w : World) : World :=
  mkWorld (socket_socket w) (torsocks_proxy w) (torsocks_queue w) (Some c)
    (queues w) (os_environ w) (log_records w) (trace w) (killed w).

Definition setenv (k v : string) (w : World) : World :=
  mkWorld (socket_socket w) (torsocks_proxy w) (torsocks_queue w)
    (torsocks_circ_id w) (queues w) (<[k:=v]> (os_environ w))
    (log_records w) (trace w) (killed w).

Definition logger (l : level) (m : log_msg) (w : World) : World :=
  mkWorld (socket_socket w) (torsocks_proxy w) (torsocks_queue w)
    (torsocks_circ_id w) (queues w) (os_environ w)
    (log_records w ++ [(l, m)]) (trace w) (killed w).

Definition observe (a : action) (w : World) : World :=
  mkWorld (socket_socket w) (torsocks_proxy w) (torsocks_queue w)
    (torsocks_circ_id w) (queues w) (os_environ w) (log_records w)
    (trace w ++ [a]) (killed w).

(** [process.kill()] on the process started with [argv]. *)
Definition note_kill (argv : list string) (w : World) : World :=
  mkWorld (socket_socket w) (torsocks_proxy w) (torsocks_queue w)
    (torsocks_circ_id w) (queues w) (os_environ w) (log_records w)
    (trace w) (killed w ++ [argv]).

Definition queue_contents (q : nat) (w : World) : list Event :=
  default [] (queues w !! q).

(** [queue.put(item)] on the queue object [q]. *)
Definition queue_put (q : nat) (ev : Event) (w : World) : World :=
  let w' := observe (APut q ev (socket_socket w)) w in
  mkWorld (socket_socket w') (torsocks_proxy w') (torsocks_queue w')
    (torsocks_circ_id w') (<[q := queue_contents q w ++ [ev]]> (queues w'))
    (os_environ w') (log_records w') (trace w') (killed w').

(** ** [run_python_over_tor] *)

Section Closure.
Context {A : Type}.

(** A Python function applied to its arguments: it may change the
    interpreter state and either returns or raises. *)
Definition pyfunc := A -> World -> World * outcome unit.

Definition closure (queue : nat) (circ_id : circuit_id) (socks_port : Z)
    (func : pyfunc) (args : A) (w : World) : World * outcome unit :=
  let w := set_default_proxy "127.0.0.1" socks_port w in
  let w := set_torsocks_queue queue w in
  let w := set_torsocks_circ_id circ_id w in
  let orig_socket := socket_socket w in
  let w := set_socket torsocket w in
  match func args w with
  | (w, Raise (SOCKSv5Error msg)) =>
      (logger Info (MsgErr (SOCKSv5Error msg)) w, Ret tt)
  | (w, Raise e) => (w, Raise e)
  | (w, Ret _) => (set_socket orig_socket w, Ret tt)
  end.

Definition run_python_over_tor (queue : nat) (circ_id : circuit_id)
    (socks_port : Z) : pyfunc -> A -> World -> World * outcome unit :=
  closure queue circ_id socks_port.
End Closure.
Arguments pyfunc A : clear implicits.

(** ** [Command] *)

(** What the output callback does on one call, given the lines it has been
    handed before: its result (truthiness of the returned value, or the
    exception raised), whether it used the kill handle, and the value it
    left in [socket.socket] if it rebound it. *)
Record cb_reply := mkReply {
  cb_result : outcome bool;
  cb_kill : bool;
  cb_socket : option socket_ctor
}.

Definition callback := list bytes -> bytes -> cb_reply.

Record Process := mkProcess {
  p_argv : list string;
  p_unread : list bytes
}.

Record Command := mkCommand {
  process : option Process;
  stdout : option bytes;
  stderr : option bytes;
  output_callback : option callback;
  queue : nat;
  origsocket : socket_ctor;
  circ_id : circuit_id
}.

(** [Command.__init__] *)
Definition new (queue : nat) (circ_id : circuit_id) (origsock : socket_ctor)
  : Command :=
  mkCommand None None None None queue origsock circ_id.

Definition set_process (p : option Process) (self : Command) : Command :=
  mkCommand p (stdout self) (stderr self) (output_callback self)
    (queue self) (origsocket self) (circ_id self).

Definition set_output (out err : option bytes) (self : Command) : Command :=
  mkCommand (process self) out err (output_callback self)
    (queue self) (origsocket self) (circ_id self).

Definition set_output_callback (cb : option callback) (self : Command)
  : Command :=
  mkCommand (process self) (stdout self) (stderr self) cb
    (queue self) (origsocket self) (circ_id self).

(** The lines of a byte stream, each with its terminator, as successive
    [readline()] calls return them. *)
Fixpoint split_lines (buf : bytes) : list bytes :=
  match buf with
  | [] => []
  | c :: rest =>
      if Ascii.eqb c "010"%char then [c] :: split_lines rest
      else match split_lines rest with
           | [] => [[c]]
           | l :: ls => (c :: l) :: ls
           end
  end.

(** [subprocess.Popen(command, env=os.environ, ...)]: the operating system
    either fails to start the program or starts a process whose merged
    stdout/stderr stream, over its whole life, is [output]. *)
Inductive spawn_result :=
| Spawned (output : bytes)
| SpawnFailed (errno : Z).

Definition OS := list string -> gmap string string -> spawn_result.

(** The [if port:] block of [invoke_process]. *)
Definition emit (self : Command) (port : bytes) (w : World) : World :=
  let tmpsock := socket_socket w in
  let w := set_socket (origsocket self) w in
  let w := queue_put (queue self)
             (circ_id self, ("127.0.0.1"%string, int_of_digits port)) w in
  set_socket tmpsock w.

Definition scan (self : Command) (line : bytes) (w : World) : World :=
  match extract_pattern line pattern with
  | Some port => if truthy (Some port) then emit self port w else w
  | None => w
  end.

(** The call [self.output_callback(line, self.process.kill)]. *)
Definition call_back (cb : callback) (argv : list string) (hist : list bytes)
    (line : bytes) (w : World) : World * outcome bool :=
  let r := cb hist line in
  let w := observe (ACallback line) w in
  let w := if cb_kill r then note_kill argv w else w in
  let w := match cb_socket r with Some c => set_socket c w | None => w end in
  (w, cb_result r).

(** The [while keep_reading] loop; [lines] is what [readline()] will
    return from now on, [hist] the lines already handed to the callback.
    Returns the lines left unread. *)
Fixpoint read_loop (self : Command) (cb : callback) (argv : list string)
    (hist : list bytes) (lines : list bytes) (w : World)
  : list bytes * World * outcome unit :=
  match lines with
  | [] => ([], w, Ret tt)
  | [] :: rest => (rest, w, Ret tt)
  | raw :: rest =>
      let line := strip raw in
      let w := scan self line w in
      match call_back cb argv hist line w with
      | (w, Raise e) => (rest, w, Raise e)
      | (w, Ret keep_reading) =>
          if keep_reading
          then read_loop self cb argv (hist ++ [line]) rest w
          else (rest, w, Ret tt)
      end
  end.

Definition invoke_process (os : OS) (self : Command) (command : list string)
    (w : World) : Command * World * outcome unit :=
  match os command (os_environ w) with
  | SpawnFailed errno => (self, w, Raise (OSError errno))
  | Spawned output =>
      let lines := split_lines output in
      let self := set_process (Some (mkProcess command lines)) self in
      let '(rest, w, r) :=
        match output_callback self with
        | Some cb => read_loop self cb command [] lines w
        | None => (lines, w, Ret tt)
        end in
      match r with
      | Raise e => (set_process (Some (mkProcess command rest)) self, w, Raise e)
      | Ret _ =>
          (* self.stdout, self.stderr = self.process.communicate() *)
          (set_output (Some (concat rest)) None
             (set_process (Some (mkProcess command [])) self), w, Ret tt)
      end
  end.

(** How the worker thread stands when [thread.join(timeout)] returns:
    finished (or dead), or still running, and then whether it has already
    bound [self.process]. *)
Inductive timing :=
| InTime
| TimedOut (spawned : bool).

Definition kill (p : Process) (w : World) : World :=
  note_kill (p_argv p) w.

(** [Command.execute].  [tmpname] is the name of the temporary file.  The
    worker runs [invoke_process]; an exception that escapes the thread's
    target ends the thread and goes no further.  The stream the operating
    system hands out is the one of the process's whole life, so a kill
    shows in it as an earlier end.

    When the worker is found finished, or when the main thread gets as far
    as the final [thread.join()], the state returned is the one the worker
    leaves.  When the join times out before the worker has bound
    [self.process] and no earlier process is there, [self.process.kill()]
    raises at once: the worker has not come back from [Popen], so the state
    in which [execute] raises has none of the worker's effects. *)
Definition execute (os : OS) (tmpname : string) (tm : timing)
    (self : Command) (command : list string) (timeout : Z)
    (output_callback : option callback) (w : World)
  : Command * World * outcome (option bytes * option bytes) :=
  let command := "torsocks"%string :: command in
  let self0 := set_output_callback output_callback self in
  let w := logger Debug (MsgInvoking command (os_environ w)) w in
  let w := logger Debug (MsgTempFile tmpname) w in
  let w := setenv "TORSOCKS_CONF_FILE" tmpname w in
  let w0 := setenv "TORSOCKS_LOG_LEVEL" "5" w in
  let '(self, w, _) := invoke_process os self0 command w0 in
  match tm with
  | InTime => (self, w, Ret (stdout self, stderr self))
  | TimedOut true =>
      let w := logger Debug (MsgKilling timeout) w in
      match process self with
      | None =>
          (self, w, Raise (AttributeError "'NoneType' object has no attribute 'kill'"))
      | Some p => (self, kill p w, Ret (stdout self, stderr self))
      end
  | TimedOut false =>
      match process self0 with
      | None =>
          (self0, logger Debug (MsgKilling timeout) w0,
           Raise (AttributeError "'NoneType' object has no attribute 'kill'"))
      | Some p =>
          (self, kill p (logger Debug (MsgKilling timeout) w),
           Ret (stdout self, stderr self))
      end
  end.

(** ** Vocabulary for statements about a run *)

(** The event a line gives rise to, if it discloses a port. *)
Definition line_events (self : Command) (line : bytes) : list Event :=
  match extract_pattern line pattern with
  | Some port => [(circ_id self, ("127.0.0.1"%string, int_of_digits port))]
  | None => []
  end.

(** What is observed while one line is handled. *)
Definition line_actions (self : Command) (line : bytes) : list action :=
  map (fun ev => APut (queue self) ev (origsocket self)) (line_events self line)
  ++ [ACallback line].

Definition events_of (self : Command) (lines : list bytes) : list Event :=
  flat_map (fun raw => line_events self (strip raw)) lines.

(** The ports disclosed by [lines], in order. *)
Definition ports_of (lines : list bytes) : list bytes :=
  omap (fun raw => extract_pattern (strip raw) pattern) lines.

Definition event_for (self : Command) (port : bytes) : Event :=
  (circ_id self, ("127.0.0.1"%string, int_of_digits port)).

Definition actions_of (self : Command) (lines : list bytes) : list action :=
  flat_map (fun raw => line_actions self (strip raw)) lines.

Definition discloses (raw : bytes) : bool :=
  match extract_pattern (strip raw) pattern with Some _ => true | None => false end.

(** Number of port-disclosure lines among [lines]. *)
Definition disclosures (lines : list bytes) : nat :=
  length (List.filter discloses lines).

(** The callback answers true, without raising, on each of [lines] in turn. *)
Fixpoint keeps_reading (cb : callback) (hist : list bytes) (lines : list bytes)
  : bool :=
  match lines with
  | [] => true
  | raw :: rest =>
      match cb_result (cb hist (strip raw)) with
      | Ret true => keeps_reading cb (hist ++ [strip raw]) rest
      | _ => false
      end
  end.

(** The lines that the reading loop takes off the stream and handles. *)
Fixpoint handled (cb : callback) (hist : list bytes) (lines : list bytes)
  : list bytes :=
  match lines with
  | [] => []
  | [] :: _ => []
  | raw :: rest =>
      raw :: match cb_result (cb hist (strip raw)) with
             | Ret true => handled cb (hist ++ [strip raw]) rest
             | _ => []
             end
  end.

(** The lines handled by one call of [invoke_process]. *)
Definition lines_handled (os : OS) (self : Command) (command : list string)
    (w : World) : list bytes :=
  match os command (os_environ w), output_callback self with
  | Spawned output, Some cb => handled cb [] (split_lines output)
  | _, _ => []
  end.

(** The interpreter state in which the closure of [run_python_over_tor]
    enters the wrapped function. *)
Definition installed (queue : nat) (circ_id : circuit_id) (socks_port : Z)
    (w : World) : World :=
  set_socket torsocket
    (set_torsocks_circ_id circ_id
       (set_torsocks_queue queue (set_default_proxy "127.0.0.1" socks_port w))).

(** The interpreter state in which [execute] starts its worker thread. *)
Definition armed (tmpname : string) (command : list string) (w : World)
  : World :=
  setenv "TORSOCKS_LOG_LEVEL" "5"
    (setenv "TORSOCKS_CONF_FILE" tmpname
       (logger Debug (MsgTempFile tmpname)
          (logger Debug
             (MsgInvoking ("torsocks"%string :: command) (os_environ w)) w))).

(** The environment the child is started in by [execute]. *)
Definition child_environ (tmpname : string) (w : World) : gmap string string :=
  <["TORSOCKS_LOG_LEVEL"%string := "5"%string]>
    (<["TORSOCKS_CONF_FILE"%string := tmpname]> (os_environ w)).

(** ** Sample inputs *)

Definition world0 : World :=
  mkWorld real_socket None None None ∅ ∅ [] [] [].

Definition patched_world : World := set_socket torsocket world0.

Definition circ1 : circuit_id := CircStr "C1".

Definition reply (r : outcome bool) : cb_reply := mkReply r false None.

Definition cb_continue : callback := fun _ _ => reply (Ret true).
Definition cb_stop : callback := fun _ _ => reply (Ret false).
Definition cb_socks_error : callback :=
  fun _ _ => reply (Raise (SOCKSv5Error "general failure")).
(** Answers true on the first line it is given and false afterwards. *)
Definition cb_stop_at_second : callback :=
  fun hist _ => reply (Ret (match hist with [] => true | _ => false end)).

Definition os_missing : OS := fun _ _ => SpawnFailed 2.

Definition sample_line : bytes :=
  b "Connection on fd 7 originating from 10.0.0.1:54321".

Definition nl : bytes := ["010"%char].

Definition os_one_line : OS := fun _ _ => Spawned (sample_line ++ nl).

Definition second_line : bytes :=
  b "Connection on fd 9 originating from 10.0.0.2:443".

Definition three_lines : bytes :=
  b "hello" ++ nl ++ sample_line ++ nl ++ second_line ++ nl.

Definition os_three_lines : OS := fun _ _ => Spawned three_lines.

Definition func_ok : pyfunc unit := fun _ w => (w, Ret tt).
Definition func_socks_error : pyfunc unit :=
  fun _ w => (w, Raise (SOCKSv5Error "connection refused")).
Definition func_other_error : pyfunc unit :=
  fun _ w => (w, Raise (OtherError "ValueError")).

(** ** Callbacks with restricted effects *)

(** The callback never rebinds [socket.socket]. *)
Definition no_rebind (cb : callback) : Prop :=
  forall hist line, cb_socket (cb hist line) = None.

(** The callback never uses the kill handle. *)
Definition no_kill (cb : callback) : Prop :=
  forall hist line, cb_kill (cb hist line) = false.

(** What [socket.socket] is bound to after the reading loop has run over
    [lines] from a state in which it was bound to [s], if nothing but the
    callback's own rebindings has a lasting effect on it. *)
Fixpoint rebound (cb : callback) (hist : list bytes) (lines : list bytes)
    (s : socket_ctor) : socket_ctor :=
  match lines with
  | [] => s
  | [] :: _ => s
  | raw :: rest =>
      let s' := default s (cb_socket (cb hist (strip raw))) in
      match cb_result (cb hist (strip raw)) with
      | Ret true => rebound cb (hist ++ [strip raw]) rest s'
      | _ => s'
      end
  end.

(** The parts of the interpreter state that [Command] has no business
    with: the [torsocks] settings. *)
Definition torsocks_settings (w : World)
  : option (string * Z) * option nat * option circuit_id :=
  (torsocks_proxy w, torsocks_queue w, torsocks_circ_id w).

(** The records [execute] writes to the log. *)
Definition execute_log (tmpname : string) (tm : timing)
    (command : list string) (timeout : Z) (w : World) : list (level * log_msg) :=
  [(Debug, MsgInvoking ("torsocks"%string :: command) (os_environ w));
   (Debug, MsgTempFile tmpname)]
  ++ match tm with
     | InTime => []
     | TimedOut _ => [(Debug, MsgKilling timeout)]
     end.

(** More sample inputs. *)
Definition os_chatty : OS := fun _ _ =>
  Spawned (b "  Connection on fd 3 originating from 10.0.0.9:99999" ++ nl
           ++ nl ++ b "done").

Definition os_second_missing : OS := fun command _ =>
  match command with
  | [_; "curl"%string] => Spawned three_lines
  | _ => SpawnFailed 2
  end.

Definition func_rebinds : pyfunc unit :=
  fun _ w => (set_socket (other_socket 7) w, Ret tt).

(** ** What it means for a text to match

    [derives re s cap c]: the regular expression [re] matches a prefix of
    [s], turning the capture [cap] into [c]. *)

Definition in_class (cls : ascii -> bool) (u : bytes) : Prop :=
  Forall (fun c => cls c = true) u.

Definition within (hi : option nat) (n : nat) : Prop :=
  match hi with Some h => n <= h | None => True end.

Inductive derives : regex -> bytes -> option bytes -> option bytes -> Prop :=
| derives_nil s cap : derives [] s cap cap
| derives_lit n t re s cap c :
    node_atom n = Lit t ->
    derives re s (if is_group n then Some t else cap) c ->
    derives (n :: re) (t ++ s) cap c
| derives_rep n cls lo hi re u s cap c :
    node_atom n = Rep cls lo hi ->
    in_class cls u -> lo <= length u -> within hi (length u) ->
    derives re s (if is_group n then Some u else cap) c ->
    derives (n :: re) (u ++ s) cap c.

(** The pattern occurs somewhere in [line]. *)
Definition occurs (re : regex) (line : bytes) : Prop :=
  exists pre s c, line = pre ++ s /\ derives re s None c.

(** The shape of a port-disclosure line:
    [Connection on fd <fd> originating from <host>:<port>]. *)
Definition disclosure_line (fd host port : bytes) : bytes :=
  lit_conn ++ fd ++ lit_orig ++ host ++ lit_colon ++ port.

Definition is_port (port : bytes) : Prop :=
  in_class is_digit port /\ 1 <= length port <= 5.

Definition is_fd (fd : bytes) : Prop :=
  in_class is_digit fd /\ 1 <= length fd.

Definition is_plain_host (host : bytes) : Prop :=
  in_class not_colon host /\ 1 <= length host.

(** * Properties *)

(** ** The model on sample inputs *)

Example extract_ipv4 : extract_pattern sample_line pattern = Some (b "54321").
Proof. reflexivity. Qed.

Example extract_embedded :
  extract_pattern (b "[debug] Connection on fd 12 originating from h:80 (x)") pattern
  = Some (b "80").
Proof. reflexivity. Qed.

Example extract_six_digits :
  extract_pattern (b "Connection on fd 7 originating from 10.0.0.1:543210") pattern
  = Some (b "54321").
Proof. reflexivity. Qed.

Example extract_missing_fd :
  extract_pattern (b "Connection on fd originating from 10.0.0.1:54321") pattern
  = None.
Proof. reflexivity. Qed.

Example int_of_digits_leading_zeros : int_of_digits (b "00080") = 80%Z.
Proof. reflexivity. Qed.

Example strip_line : strip (b "  ok" ++ nl) = b "ok".
Proof. reflexivity. Qed.

Example split_lines_keeps_ends :
  split_lines (b "ab" ++ nl ++ nl ++ b "c") = [b "ab" ++ nl; nl; b "c"].
Proof. reflexivity. Qed.

Example execute_reads_to_the_end :
  (execute os_three_lines "/tmp/torsocks_a" InTime (new 0 circ1 real_socket)
     ["curl"%string] 10 (Some cb_continue) world0).2
  = Ret (Some [], None).
Proof. reflexivity. Qed.

Example execute_timed_out_before_spawn :
  (execute os_three_lines "/tmp/torsocks_a" (TimedOut false)
     (new 0 circ1 real_socket) ["curl"%string] 10 None world0).2
  = Raise (AttributeError "'NoneType' object has no attribute 'kill'").
Proof. reflexivity. Qed.

Example execute_timed_out_kills :
  killed (execute os_three_lines "/tmp/torsocks_a" (TimedOut true)
            (new 0 circ1 real_socket) ["curl"%string] 10 None world0).1.2
  = [["torsocks"; "curl"]%string].
Proof. reflexivity. Qed.

(** ** The pattern matcher *)

Lemma starts_with_app t s : starts_with t (t ++ s) = true.
Proof.
  induction t as [|c t IH]; simpl; [done|].
  by rewrite Ascii.eqb_refl, IH.
Qed.

Lemma starts_with_inv t s : starts_with t s = true -> s = t ++ drop (length t) s.
Proof.
  revert s; induction t as [|c t IH]; intros [|d s]; simpl; try done.
  intros [Hc Ht]%andb_prop. apply Ascii.eqb_eq in Hc; subst d.
  f_equal. by apply IH.
Qed.

Lemma span_le cls s : span cls s <= length s.
Proof. induction s as [|c s IH]; simpl; [lia|]. destruct (cls c); simpl; lia. Qed.

Lemma span_take cls s k : k <= span cls s -> in_class cls (take k s).
Proof.
  revert k; induction s as [|c s IH]; intros k Hk; simpl in *.
  - rewrite take_nil. constructor.
  - destruct k as [|k]; [constructor|]. simpl.
    destruct (cls c) eqn:Hc; [|lia].
    constructor; [done|]. apply IH. lia.
Qed.

Lemma span_app_ge cls u s : in_class cls u -> length u <= span cls (u ++ s).
Proof.
  induction 1 as [|c u Hc _ IH]; simpl; [lia|]. rewrite Hc. lia.
Qed.

Lemma span_app_stop cls u s :
  in_class cls u ->
  match s with [] => True | c :: _ => cls c = false end ->
  span cls (u ++ s) = length u.
Proof.
  intros Hu Hs. induction Hu as [|c u Hc _ IH]; simpl.
  - destruct s as [|d s]; simpl; [done|]. by rewrite Hs.
  - by rewrite Hc, IH.
Qed.

Lemma backtrack_first {R} k lo (f : nat -> option R) r :
  f k = Some r -> backtrack k lo f = Some r.
Proof. intros H. destruct k; simpl; by rewrite H. Qed.

Lemma backtrack_sound {R} k lo (f : nat -> option R) r :
  lo <= k -> backtrack k lo f = Some r ->
  exists j, lo <= j <= k /\ f j = Some r.
Proof.
  induction k as [|k IH]; simpl; intros Hlo H.
  - destruct (f 0) eqn:E; [|done]. exists 0. split; [lia|congruence].
  - destruct (f (S k)) eqn:E.
    + exists (S k). split; [lia|congruence].
    + destruct (Nat.leb_spec lo k) as [Hle|]; [|done].
      destruct (IH Hle H) as (j & Hj & Hfj). exists j. split; [lia|done].
Qed.

Lemma backtrack_complete {R} k lo (f : nat -> option R) j :
  lo <= j <= k -> is_Some (f j) -> is_Some (backtrack k lo f).
Proof.
  induction k as [|k IH]; simpl; intros Hj Hf.
  - assert (j = 0) by lia; subst. destruct (f 0); [eauto|by destruct Hf].
  - destruct (f (S k)) eqn:E; [eauto|].
    destruct (decide (j = S k)) as [->|Hne].
    { rewrite E in Hf. by destruct Hf. }
    destruct (Nat.leb_spec lo k) as [Hle|]; [|lia].
    apply IH; [lia|done].
Qed.

Lemma match_here_sound re s cap c :
  match_here re s cap = Some c -> derives re s cap c.
Proof.
  revert s cap; induction re as [|n re IH]; intros s cap; simpl.
  - intros [= ->]. constructor.
  - destruct (node_atom n) as [t|cls lo hi] eqn:Hn.
    + destruct (starts_with t s) eqn:Ht; [|done]. intros H.
      rewrite (starts_with_inv _ _ Ht). eapply derives_lit; eauto.
    + destruct (Nat.leb_spec lo (greedy_max cls hi s)) as [Hlo|]; [|done].
      intros H. apply backtrack_sound in H as (j & Hj & H); [|done].
      rewrite <- (take_drop j s).
      assert (j <= span cls s) as Hspan.
      { unfold greedy_max in Hj. destruct hi; lia. }
      assert (length (take j s) = j) as Hlen.
      { rewrite length_take. pose proof (span_le cls s). lia. }
      apply (derives_rep n cls lo hi); try done.
      * by apply span_take.
      * lia.
      * rewrite Hlen. unfold greedy_max in Hj. destruct hi; simpl; [lia|done].
      * apply IH. done.
Qed.

Lemma match_here_complete re s cap c :
  derives re s cap c -> forall cap', is_Some (match_here re s cap').
Proof.
  induction 1 as [s cap|n t re s cap c Hn _ IH
                 |n cls lo hi re u s cap c Hn Hu Hlo Hhi _ IH]; intros cap'; simpl.
  - eauto.
  - rewrite Hn, starts_with_app, drop_app_length. apply IH.
  - rewrite Hn.
    pose proof (span_app_ge cls u s Hu) as Hspan.
    assert (length u <= greedy_max cls hi (u ++ s)) as Hmax.
    { unfold greedy_max. destruct hi; simpl in *; lia. }
    destruct (Nat.leb_spec lo (greedy_max cls hi (u ++ s))) as [_|]; [|lia].
    apply (backtrack_complete _ _ _ (length u)); [lia|].
    rewrite drop_app_length. apply IH.
Qed.

Lemma search_sound re s c :
  search re s = Some c -> exists pre s', s = pre ++ s' /\ derives re s' None c.
Proof.
  induction s as [|a s IH]; simpl.
  - destruct (match_here re [] None) eqn:E; [|done].
    intros [= ->]. exists [], []. split; [done|]. by apply match_here_sound.
  - destruct (match_here re (a :: s) None) eqn:E.
    + intros [= ->]. exists [], (a :: s). split; [done|]. by apply match_here_sound.
    + intros (pre & s' & -> & H)%IH. exists (a :: pre), s'. done.
Qed.

Lemma search_complete re pre s c :
  derives re s None c -> is_Some (search re (pre ++ s)).
Proof.
  intros H. induction pre as [|a pre IH]; simpl.
  - destruct (match_here_complete _ _ _ _ H None) as [c' Hc'].
    destruct s; simpl; rewrite Hc'; eauto.
  - destruct (match_here re (a :: pre ++ s) None); eauto.
Qed.

Ltac invert_derives H :=
  inversion H; subst; clear H;
  repeat match goal with
    | E : node_atom _ = _ |- _ => simpl in E; try discriminate E; injection E as; subst
    end.

Lemma derives_pattern_inv s c :
  derives pattern s None c ->
  exists fd host port rest,
    s = disclosure_line fd host port ++ rest /\
    is_fd fd /\ is_plain_host host /\ is_port port /\ c = Some port.
Proof.
  unfold pattern. intros H0.
  invert_derives H0.
  match goal with H : derives _ _ _ _ |- _ => invert_derives H end.
  match goal with H : derives _ _ _ _ |- _ => invert_derives H end.
  match goal with H : derives _ _ _ _ |- _ => invert_derives H end.
  match goal with H : derives _ _ _ _ |- _ => invert_derives H end.
  match goal with H : derives _ _ _ _ |- _ => invert_derives H end.
  match goal with H : derives _ _ _ _ |- _ => invert_derives H end.
  match goal with
  | |- context [ lit_conn ++ ?fd ++ lit_orig ++ ?host ++ lit_colon ++ ?port ++ ?rest ] =>
      exists fd, host, port, rest
  end.
  unfold disclosure_line, is_fd, is_plain_host, is_port.
  cbn [is_group within] in *.
  rewrite <- !app_assoc. repeat split; done.
Qed.

Lemma derives_pattern_intro fd host port rest :
  is_fd fd -> is_plain_host host -> is_port port ->
  derives pattern (disclosure_line fd host port ++ rest) None (Some port).
Proof.
  intros [Hfd Hfdn] [Hh Hhn] [Hp Hpn]. unfold disclosure_line, pattern.
  rewrite <- !app_assoc.
  eapply derives_lit; [done|].
  eapply derives_rep; [done|done|done|done|].
  eapply derives_lit; [done|].
  eapply derives_rep; [done|done|done|done|].
  eapply derives_lit; [done|].
  eapply derives_rep; [done|done|lia|cbn; lia|].
  constructor.
Qed.

Lemma occurs_pattern_iff line :
  occurs pattern line <->
  exists pre fd host port rest,
    line = pre ++ disclosure_line fd host port ++ rest /\
    is_fd fd /\ is_plain_host host /\ is_port port.
Proof.
  split.
  - intros (pre & s & c & -> & H).
    apply derives_pattern_inv in H as (fd & host & port & rest & -> & ? & ? & ? & _).
    by exists pre, fd, host, port, rest.
  - intros (pre & fd & host & port & rest & -> & Hfd & Hh & Hp).
    exists pre, (disclosure_line fd host port ++ rest), (Some port).
    split; [done|]. by apply derives_pattern_intro.
Qed.

Lemma extract_pattern_Some line port :
  extract_pattern line pattern = Some port ->
  is_port port /\ occurs pattern line.
Proof.
  unfold extract_pattern. destruct (search pattern line) as [[g|]|] eqn:E; try done.
  intros [= ->]. apply search_sound in E as (pre & s & -> & H).
  split; [|by exists pre, s, (Some port)].
  by apply derives_pattern_inv in H as (? & ? & ? & ? & _ & _ & _ & ? & [= ->]).
Qed.

Lemma extract_pattern_None line :
  extract_pattern line pattern = None <-> ~ occurs pattern line.
Proof.
  split.
  - intros Hnone (pre & s & c & -> & H).
    destruct (search_complete pattern pre s c H) as [c' Hc'].
    unfold extract_pattern in Hnone. rewrite Hc' in Hnone.
    apply search_sound in Hc' as (pre' & s' & _ & H').
    apply derives_pattern_inv in H' as (? & ? & ? & ? & _ & _ & _ & _ & ->).
    done.
  - intros Hno. destruct (extract_pattern line pattern) as [port|] eqn:E; [|done].
    destruct Hno. by apply extract_pattern_Some in E as [_ ?].
Qed.

Lemma extract_pattern_truthy line :
  truthy (extract_pattern line pattern) = true <->
  is_Some (extract_pattern line pattern).
Proof.
  destruct (extract_pattern line pattern) as [port|] eqn:E; simpl.
  - apply extract_pattern_Some in E as [[_ Hlen] _].
    destruct port; simpl in *; [lia|]. split; eauto.
  - split; [done|]. by intros [? ?].
Qed.

Lemma match_here_disclosure fd host port :
  is_fd fd -> is_plain_host host -> is_port port ->
  match_here pattern (disclosure_line fd host port) None = Some (Some port).
Proof.
  intros [Hfd Hfdn] [Hh Hhn] [Hp Hpn]. unfold disclosure_line, pattern.
  cbn [match_here node_atom is_group].
  rewrite starts_with_app, drop_app_length.
  assert (greedy_max is_digit None (fd ++ lit_orig ++ host ++ lit_colon ++ port)
          = length fd) as ->.
  { apply span_app_stop; done. }
  destruct (Nat.leb_spec 1 (length fd)) as [_|]; [|lia].
  apply backtrack_first. rewrite drop_app_length.
  rewrite starts_with_app, drop_app_length.
  assert (greedy_max not_colon None (host ++ lit_colon ++ port) = length host) as ->.
  { apply span_app_stop; done. }
  destruct (Nat.leb_spec 1 (length host)) as [_|]; [|lia].
  apply backtrack_first. rewrite drop_app_length.
  rewrite starts_with_app, drop_app_length.
  assert (greedy_max is_digit (Some 5) port = length port) as ->.
  { unfold greedy_max. rewrite <- (app_nil_r port) at 1.
    rewrite span_app_stop by done. lia. }
  destruct (Nat.leb_spec 1 (length port)) as [_|]; [|lia].
  apply backtrack_first. by rewrite firstn_all.
Qed.

Lemma extract_disclosure_line fd host port :
  is_fd fd -> is_plain_host host -> is_port port ->
  extract_pattern (disclosure_line fd host port) pattern = Some port.
Proof.
  intros Hfd Hh Hp. unfold extract_pattern.
  pose proof (match_here_disclosure fd host port Hfd Hh Hp) as H.
  destruct (disclosure_line fd host port); cbn [search]; by rewrite H.
Qed.

(** ** Splitting the stream into lines *)

Lemma split_lines_nil_inv buf : split_lines buf = [] -> buf = [].
Proof.
  destruct buf as [|c rest]; [done|]. simpl.
  destruct (Ascii.eqb c "010"); [done|]. by destruct (split_lines rest).
Qed.

Lemma split_lines_nonempty buf : Forall (fun l => l <> []) (split_lines buf).
Proof.
  induction buf as [|c rest IH]; simpl; [constructor|].
  destruct (Ascii.eqb c "010").
  - by constructor.
  - destruct (split_lines rest) as [|l ls]; [by repeat constructor|].
    inversion IH; subst. by constructor.
Qed.

Lemma concat_split_lines buf : concat (split_lines buf) = buf.
Proof.
  induction buf as [|c rest IH]; simpl; [done|].
  destruct (Ascii.eqb c "010"); simpl; [by rewrite IH|].
  destruct (split_lines rest) as [|l ls] eqn:E; simpl in *.
  - by rewrite (split_lines_nil_inv _ E).
  - by rewrite IH.
Qed.

(** ** Effects of the steps of the reading loop *)

Lemma emit_socket self port w :
  socket_socket (emit self port w) = socket_socket w.
Proof. reflexivity. Qed.

Lemma emit_trace self port w :
  trace (emit self port w) =
  trace w ++ [APut (queue self)
                (circ_id self, ("127.0.0.1"%string, int_of_digits port))
                (origsocket self)].
Proof. reflexivity. Qed.

Lemma emit_queue self port w :
  queue_contents (queue self) (emit self port w) =
  queue_contents (queue self) w
  ++ [(circ_id self, ("127.0.0.1"%string, int_of_digits port))].
Proof.
  unfold emit, queue_contents, queue_put; simpl. by rewrite lookup_insert_eq.
Qed.

Lemma emit_queue_other self port w q :
  q <> queue self ->
  queue_contents q (emit self port w) = queue_contents q w.
Proof.
  intros Hq. unfold emit, queue_contents, queue_put; simpl.
  by rewrite lookup_insert_ne.
Qed.

Lemma scan_socket self line w :
  socket_socket (scan self line w) = socket_socket w.
Proof.
  unfold scan. destruct (extract_pattern line pattern); [|done].
  by destruct (truthy _).
Qed.

Lemma scan_emits self line port w :
  extract_pattern line pattern = Some port -> scan self line w = emit self port w.
Proof.
  intros E. unfold scan. rewrite E.
  assert (truthy (Some port) = true) as ->; [|done].
  rewrite <- E. apply extract_pattern_truthy. rewrite E. eauto.
Qed.

Lemma scan_trace self line w :
  trace (scan self line w) =
  trace w ++ map (fun ev => APut (queue self) ev (origsocket self))
               (line_events self line).
Proof.
  unfold line_events. destruct (extract_pattern line pattern) as [port|] eqn:E.
  - by rewrite (scan_emits _ _ _ _ E), emit_trace.
  - unfold scan. rewrite E. simpl. by rewrite app_nil_r.
Qed.

Lemma scan_queue self line w :
  queue_contents (queue self) (scan self line w) =
  queue_contents (queue self) w ++ line_events self line.
Proof.
  unfold line_events. destruct (extract_pattern line pattern) as [port|] eqn:E.
  - by rewrite (scan_emits _ _ _ _ E), emit_queue.
  - unfold scan. rewrite E. by rewrite app_nil_r.
Qed.

Lemma scan_queue_other self line w q :
  q <> queue self ->
  queue_contents q (scan self line w) = queue_contents q w.
Proof.
  intros Hq. unfold scan. destruct (extract_pattern line pattern); [|done].
  destruct (truthy _); [|done]. by apply emit_queue_other.
Qed.

Lemma scan_log self line w :
  log_records (scan self line w) = log_records w.
Proof.
  unfold scan. destruct (extract_pattern line pattern); [|done].
  by destruct (truthy _).
Qed.

Lemma call_back_effects cb argv hist line w :
  let w' := (call_back cb argv hist line w).1 in
  trace w' = trace w ++ [ACallback line] /\
  queues w' = queues w /\
  log_records w' = log_records w /\
  (call_back cb argv hist line w).2 = cb_result (cb hist line).
Proof.
  unfold call_back; simpl.
  destruct (cb_kill (cb hist line)), (cb_socket (cb hist line)); done.
Qed.

Lemma handled_app cb hist pre lines :
  Forall (fun l => l <> []) pre ->
  keeps_reading cb hist pre = true ->
  handled cb hist (pre ++ lines) = pre ++ handled cb (hist ++ map strip pre) lines.
Proof.
  intros Hne. revert hist.
  induction Hne as [|raw pre Hraw _ IH]; intros hist; simpl.
  - by rewrite app_nil_r.
  - destruct raw as [|c raw]; [done|].
    destruct (cb_result (cb hist (strip (c :: raw)))) as [[|]|]; try done.
    intros Hk. rewrite (IH _ Hk). by rewrite <- app_assoc.
Qed.

Lemma handled_all cb hist lines :
  Forall (fun l => l <> []) lines ->
  keeps_reading cb hist lines = true ->
  handled cb hist lines = lines.
Proof.
  intros Hne Hk. rewrite <- (app_nil_r lines) at 1.
  rewrite handled_app by done. simpl. by rewrite app_nil_r.
Qed.


(** What one run of the loop does to the observable state. *)
Lemma read_loop_effects self cb argv hist lines w rest w' r :
  read_loop self cb argv hist lines w = (rest, w', r) ->
  trace w' = trace w ++ actions_of self (handled cb hist lines) /\
  queue_contents (queue self) w' =
    queue_contents (queue self) w ++ events_of self (handled cb hist lines) /\
  log_records w' = log_records w.
Proof.
  revert hist w; induction lines as [|raw lines IH]; intros hist w;
    cbn [read_loop handled].
  - intros [= <- <- <-]. simpl. by rewrite !app_nil_r.
  - destruct raw as [|c raw].
    { intros [= <- <- <-]. simpl. by rewrite !app_nil_r. }
    set (line := strip (c :: raw)).
    pose proof (call_back_effects cb argv hist line (scan self line w))
      as (Ht & Hq & Hl & Hr).
    destruct (call_back cb argv hist line (scan self line w)) as [w1 res].
    simpl in Ht, Hq, Hl, Hr. subst res.
    assert (trace w1 = trace w ++ line_actions self line) as Ht1.
    { rewrite Ht, scan_trace. unfold line_actions. by rewrite <- app_assoc. }
    assert (queue_contents (queue self) w1 =
            queue_contents (queue self) w ++ line_events self line) as Hq1.
    { unfold queue_contents at 1. rewrite Hq. apply scan_queue. }
    assert (log_records w1 = log_records w) as Hl1.
    { by rewrite Hl, scan_log. }
    unfold actions_of, events_of.
    destruct (cb_result (cb hist line)) as [[|]|e]; cbn [flat_map].
    + intros H. apply IH in H as (Ht2 & Hq2 & Hl2).
      rewrite Ht2, Hq2, Hl2, Ht1, Hq1, Hl1.
      unfold actions_of, events_of. by rewrite <- !app_assoc.
    + intros [= <- <- <-]. by rewrite !app_nil_r.
    + intros [= <- <- <-]. by rewrite !app_nil_r.
Qed.

Lemma events_of_ports self lines :
  events_of self lines = map (event_for self) (ports_of lines).
Proof.
  unfold events_of, ports_of, line_events.
  induction lines as [|raw lines IH]; simpl; [done|].
  destruct (extract_pattern (strip raw) pattern); simpl; by rewrite IH.
Qed.

Lemma disclosures_ports lines : disclosures lines = length (ports_of lines).
Proof.
  unfold disclosures, ports_of, discloses.
  induction lines as [|raw lines IH]; simpl; [done|].
  destruct (extract_pattern (strip raw) pattern); simpl; by rewrite IH.
Qed.

Lemma keeps_reading_app cb hist pre lines :
  keeps_reading cb hist (pre ++ lines) =
  keeps_reading cb hist pre && keeps_reading cb (hist ++ map strip pre) lines.
Proof.
  revert hist; induction pre as [|raw pre IH]; intros hist; simpl.
  - by rewrite app_nil_r.
  - destruct (cb_result (cb hist (strip raw))) as [[|]|]; try done.
    by rewrite IH, <- app_assoc.
Qed.

Lemma handled_stop cb hist pre lk post :
  Forall (fun l => l <> []) (pre ++ lk :: post) ->
  keeps_reading cb hist pre = true ->
  cb_result (cb (hist ++ map strip pre) (strip lk)) <> Ret true ->
  handled cb hist (pre ++ lk :: post) = pre ++ [lk].
Proof.
  intros [Hpre Hlk]%Forall_app Hk Hres.
  rewrite handled_app by done. f_equal.
  inversion Hlk as [|? ? Hne _]; subst.
  destruct lk as [|c lk]; [done|]. cbn [handled].
  by destruct (cb_result (cb (hist ++ map strip pre) (strip (c :: lk)))) as [[|]|].
Qed.

(** The loop reads to the end of the stream when the callback keeps
    answering true. *)
Lemma read_loop_to_end self cb argv hist lines w :
  Forall (fun l => l <> []) lines ->
  keeps_reading cb hist lines = true ->
  exists w', read_loop self cb argv hist lines w = ([], w', Ret tt).
Proof.
  intros Hne. revert hist w.
  induction Hne as [|raw lines Hraw _ IH]; intros hist w; cbn [read_loop keeps_reading].
  - eauto.
  - destruct raw as [|c raw]; [done|].
    pose proof (call_back_effects cb argv hist (strip (c :: raw))
                  (scan self (strip (c :: raw)) w)) as (_ & _ & _ & Hr).
    destruct (call_back cb argv hist (strip (c :: raw))
                (scan self (strip (c :: raw)) w)) as [w1 res].
    simpl in Hr; subst res.
    destruct (cb_result (cb hist (strip (c :: raw)))) as [[|]|]; try done.
    apply IH.
Qed.

(** The loop stops at the first line on which the callback does not answer
    true; the lines after it stay unread. *)
Lemma read_loop_stops self cb argv hist pre lk post w :
  Forall (fun l => l <> []) (pre ++ lk :: post) ->
  keeps_reading cb hist pre = true ->
  cb_result (cb (hist ++ map strip pre) (strip lk)) <> Ret true ->
  exists w',
    read_loop self cb argv hist (pre ++ lk :: post) w =
    (post, w', match cb_result (cb (hist ++ map strip pre) (strip lk)) with
               | Raise e => Raise e
               | Ret _ => Ret tt
               end).
Proof.
  revert hist w; induction pre as [|raw pre IH]; intros hist w Hne Hk Hres;
    cbn [read_loop keeps_reading app] in *.
  - rewrite app_nil_r in *. inversion Hne as [|? ? Hlk _]; subst.
    destruct lk as [|c lk]; [done|].
    pose proof (call_back_effects cb argv hist (strip (c :: lk))
                  (scan self (strip (c :: lk)) w)) as (_ & _ & _ & Hr).
    destruct (call_back cb argv hist (strip (c :: lk))
                (scan self (strip (c :: lk)) w)) as [w1 res].
    simpl in Hr; subst res.
    destruct (cb_result (cb hist (strip (c :: lk)))) as [[|]|]; try done; eauto.
  - inversion Hne as [|? ? Hraw Hne']; subst.
    destruct raw as [|c raw]; [done|].
    pose proof (call_back_effects cb argv hist (strip (c :: raw))
                  (scan self (strip (c :: raw)) w)) as (_ & _ & _ & Hr).
    destruct (call_back cb argv hist (strip (c :: raw))
                (scan self (strip (c :: raw)) w)) as [w1 res].
    simpl in Hr; subst res.
    destruct (cb_result (cb hist (strip (c :: raw)))) as [[|]|]; try done.
    cbn [map] in Hres |- *.
    replace (hist ++ strip (c :: raw) :: map strip pre)
      with ((hist ++ [strip (c :: raw)]) ++ map strip pre) in *
      by (by rewrite <- app_assoc).
    by apply IH.
Qed.

(** ** [invoke_process] *)

Lemma invoke_process_spawn_failed os self command w errno :
  os command (os_environ w) = SpawnFailed errno ->
  invoke_process os self command w = (self, w, Raise (OSError errno)).
Proof. intros E. unfold invoke_process. by rewrite E. Qed.

Lemma invoke_process_no_callback os self command w output :
  os command (os_environ w) = Spawned output ->
  output_callback self = None ->
  invoke_process os self command w =
  (set_output (Some output) None
     (set_process (Some (mkProcess command [])) self), w, Ret tt).
Proof.
  intros E Hcb. unfold invoke_process. rewrite E.
  cbn [output_callback set_process]. rewrite Hcb.
  by rewrite concat_split_lines.
Qed.

Lemma invoke_process_to_end os self cb command w output :
  os command (os_environ w) = Spawned output ->
  output_callback self = Some cb ->
  keeps_reading cb [] (split_lines output) = true ->
  exists w',
    invoke_process os self command w =
    (set_output (Some []) None
       (set_process (Some (mkProcess command [])) self), w', Ret tt).
Proof.
  intros E Hcb Hk. unfold invoke_process. rewrite E.
  cbn [output_callback set_process]. rewrite Hcb.
  destruct (read_loop_to_end
              (set_process (Some (mkProcess command (split_lines output))) self)
              cb command [] (split_lines output) w
              (split_lines_nonempty output) Hk) as [w' ->].
  by exists w'.
Qed.

Lemma invoke_process_stops os self cb command w output pre lk post :
  os command (os_environ w) = Spawned output ->
  output_callback self = Some cb ->
  split_lines output = pre ++ lk :: post ->
  keeps_reading cb [] pre = true ->
  cb_result (cb (map strip pre) (strip lk)) <> Ret true ->
  exists w',
    invoke_process os self command w =
    match cb_result (cb (map strip pre) (strip lk)) with
    | Raise e =>
        (set_process (Some (mkProcess command post)) self, w', Raise e)
    | Ret _ =>
        (set_output (Some (concat post)) None
           (set_process (Some (mkProcess command [])) self), w', Ret tt)
    end.
Proof.
  intros E Hcb Hsplit Hk Hres. unfold invoke_process. rewrite E.
  cbn [output_callback set_process]. rewrite Hcb.
  pose proof (split_lines_nonempty output) as Hne. rewrite Hsplit in Hne |- *.
  destruct (read_loop_stops
              (set_process (Some (mkProcess command (pre ++ lk :: post))) self)
              cb command [] pre lk post w Hne Hk Hres) as [w' ->].
  exists w'. cbn [app] in *.
  by destruct (cb_result (cb (map strip pre) (strip lk))).
Qed.

Lemma invoke_process_effects os self command w self' w' r :
  invoke_process os self command w = (self', w', r) ->
  trace w' = trace w ++ actions_of self (lines_handled os self command w) /\
  queue_contents (queue self) w' =
    queue_contents (queue self) w
    ++ events_of self (lines_handled os self command w) /\
  log_records w' = log_records w /\
  (queue self', origsocket self', circ_id self')
  = (queue self, origsocket self, circ_id self).
Proof.
  unfold invoke_process, lines_handled.
  destruct (os command (os_environ w)) as [output|errno].
  2:{ intros [= <- <- <-]. simpl. by rewrite !app_nil_r. }
  cbn [output_callback set_process].
  destruct (output_callback self) as [cb|].
  2:{ intros [= <- <- <-]. simpl. by rewrite !app_nil_r. }
  destruct (read_loop _ cb command [] (split_lines output) w)
    as [[rest w1] r1] eqn:Hloop.
  apply read_loop_effects in Hloop as (Ht & Hq & Hl).
  destruct r1; intros [= <- <- <-]; done.
Qed.


(** ** [execute] *)

Lemma execute_unfold os tmpname tm self command timeout ocb w :
  execute os tmpname tm self command timeout ocb w =
  let self0 := set_output_callback ocb self in
  let w0 := armed tmpname command w in
  let '(self1, w1, _) :=
    invoke_process os self0 ("torsocks"%string :: command) w0 in
  match tm with
  | InTime => (self1, w1, Ret (stdout self1, stderr self1))
  | TimedOut true =>
      match process self1 with
      | None =>
          (self1, logger Debug (MsgKilling timeout) w1,
           Raise (AttributeError "'NoneType' object has no attribute 'kill'"))
      | Some p =>
          (self1, kill p (logger Debug (MsgKilling timeout) w1),
           Ret (stdout self1, stderr self1))
      end
  | TimedOut false =>
      match process self0 with
      | None =>
          (self0, logger Debug (MsgKilling timeout) w0,
           Raise (AttributeError "'NoneType' object has no attribute 'kill'"))
      | Some p =>
          (self1, kill p (logger Debug (MsgKilling timeout) w1),
           Ret (stdout self1, stderr self1))
      end
  end.
Proof. reflexivity. Qed.

Lemma armed_environ tmpname command w :
  os_environ (armed tmpname command w) = child_environ tmpname w.
Proof. reflexivity. Qed.

Lemma armed_log tmpname command w :
  log_records (armed tmpname command w) =
  log_records w
  ++ [(Debug, MsgInvoking ("torsocks"%string :: command) (os_environ w));
      (Debug, MsgTempFile tmpname)].
Proof. unfold armed; simpl. by rewrite <- app_assoc. Qed.

(** What [execute] has done to the observable state when it returns. *)
Lemma execute_effects os tmpname tm self command timeout ocb w self' w' v :
  execute os tmpname tm self command timeout ocb w = (self', w', Ret v) ->
  let self0 := set_output_callback ocb self in
  let hs := lines_handled os self0 ("torsocks"%string :: command)
              (armed tmpname command w) in
  trace w' = trace w ++ actions_of self hs /\
  queue_contents (queue self) w' = queue_contents (queue self) w ++ events_of self hs.
Proof.
  rewrite execute_unfold. cbn zeta.
  destruct (invoke_process os (set_output_callback ocb self)
              ("torsocks"%string :: command) (armed tmpname command w))
    as [[self1 w1] r1] eqn:Hinv.
  apply invoke_process_effects in Hinv as (Ht & Hq & _ & _).
  cbn [queue set_output_callback] in Hq.
  change (actions_of (set_output_callback ocb self)) with (actions_of self) in Ht.
  change (events_of (set_output_callback ocb self)) with (events_of self) in Hq.
  change (trace (armed tmpname command w)) with (trace w) in Ht.
  change (queue_contents (queue self) (armed tmpname command w))
    with (queue_contents (queue self) w) in Hq.
  destruct tm as [|[|]].
  - by intros [= <- <- <-].
  - destruct (process self1); [|done]. by intros [= <- <- <-].
  - destruct (process (set_output_callback ocb self)); [|done].
    by intros [= <- <- <-].
Qed.

(** After the loop, [socket.socket] is bound to what the callback last
    bound it to, or to what it was bound to before: the puts leave nothing
    behind. *)
Lemma read_loop_socket self cb argv hist lines w rest w' r :
  read_loop self cb argv hist lines w = (rest, w', r) ->
  socket_socket w' = rebound cb hist lines (socket_socket w).
Proof.
  revert hist w; induction lines as [|raw lines IH]; intros hist w;
    cbn [read_loop rebound].
  - by intros [= <- <- <-].
  - destruct raw as [|c raw]; [by intros [= <- <- <-]|].
    set (line := strip (c :: raw)).
    assert (socket_socket
              (call_back cb argv hist line (scan self line w)).1
            = default (socket_socket w) (cb_socket (cb hist line))) as Hs.
    { unfold call_back; simpl.
      destruct (cb_kill (cb hist line)), (cb_socket (cb hist line)); simpl;
        try done; apply scan_socket. }
    pose proof (call_back_effects cb argv hist line (scan self line w))
      as (_ & _ & _ & Hr).
    destruct (call_back cb argv hist line (scan self line w)) as [w1 res].
    simpl in Hs, Hr. subst res.
    destruct (cb_result (cb hist line)) as [[|]|e].
    + intros H. apply IH in H. by rewrite H, Hs.
    + by intros [= <- <- <-].
    + by intros [= <- <- <-].
Qed.

Lemma invoke_process_socket os self command w self' w' r :
  invoke_process os self command w = (self', w', r) ->
  socket_socket w' =
    match os command (os_environ w), output_callback self with
    | Spawned output, Some cb =>
        rebound cb [] (split_lines output) (socket_socket w)
    | _, _ => socket_socket w
    end.
Proof.
  unfold invoke_process.
  destruct (os command (os_environ w)) as [output|errno].
  2:{ by intros [= <- <- <-]. }
  cbn [output_callback set_process].
  destruct (output_callback self) as [cb|].
  2:{ by intros [= <- <- <-]. }
  destruct (read_loop _ cb command [] (split_lines output) w)
    as [[rest w1] r1] eqn:Hloop.
  apply read_loop_socket in Hloop.
  destruct r1; by intros [= <- <- <-].
Qed.

(** * The claims of the specification *)

(** ** The closure of [run_python_over_tor] *)

Section ClosureFacts.
Context {A : Type}.
Implicit Types (func : pyfunc A) (args : A) (w : World).

Lemma closure_return_restores queue circ_id socks_port func args w w1 :
  func args (installed queue circ_id socks_port w) = (w1, Ret tt) ->
  closure queue circ_id socks_port func args w
  = (set_socket (socket_socket w) w1, Ret tt).
Proof. unfold closure, installed. intros ->. done. Qed.

Lemma closure_socks_error_returns queue circ_id socks_port func args w w1 msg :
  func args (installed queue circ_id socks_port w)
  = (w1, Raise (SOCKSv5Error msg)) ->
  closure queue circ_id socks_port func args w
  = (logger Info (MsgErr (SOCKSv5Error msg)) w1, Ret tt).
Proof. unfold closure, installed. intros ->. done. Qed.

Lemma closure_other_error_propagates queue circ_id socks_port func args w w1 e :
  (forall msg, e <> SOCKSv5Error msg) ->
  func args (installed queue circ_id socks_port w) = (w1, Raise e) ->
  closure queue circ_id socks_port func args w = (w1, Raise e).
Proof.
  unfold closure, installed. intros He ->. destruct e; try done.
  by destruct (He msg).
Qed.
End ClosureFacts.

(** C1.  The prior [socket.socket] is put back when the wrapped function
    returns normally, but not on the two exceptional paths: when the function
    raises [SOCKSv5Error] the closure logs it and returns with
    [socket.socket] still bound to [torsocks.torsocket], and when it raises
    anything else the exception propagates with the binding still in place. *)
Theorem closure_restores_only_on_return :
  let prior := socket_socket world0 in
  let normal := closure 0 circ1 9050 func_ok tt world0 in
  let socks := closure 0 circ1 9050 func_socks_error tt world0 in
  let other := closure 0 circ1 9050 func_other_error tt world0 in
  prior = real_socket /\
  (normal.2 = Ret tt /\ socket_socket normal.1 = prior) /\
  (socks.2 = Ret tt /\
   log_records socks.1 = [(Info, MsgErr (SOCKSv5Error "connection refused"))] /\
   socket_socket socks.1 = torsocket) /\
  (other.2 = Raise (OtherError "ValueError") /\
   socket_socket other.1 = torsocket).
Proof. cbv zeta. repeat split; reflexivity. Qed.

(** ** Spawn failure *)

(** C2, as stated, fails: with an executable that cannot be started,
    [execute] on a fresh command returns [(None, None)] instead of raising. *)
Lemma spawn_failure_is_masked :
  let '(_, w', r) :=
    execute os_missing "/tmp/torsocks_a" InTime (new 0 circ1 real_socket)
      ["nonexistent"%string] 10 None world0 in
  os_missing ["torsocks"; "nonexistent"]%string
    (child_environ "/tmp/torsocks_a" world0) = SpawnFailed 2 /\
  r = Ret (None, None).
Proof. vm_compute. done. Qed.

(** C2, amended.  When the command cannot be spawned, the [OSError] is
    raised inside the worker thread and ends it there; it never reaches the
    caller of [execute].  If the worker is found finished, [execute] returns
    the command's [stdout] and [stderr] attributes as they were before the
    call ([None] on a fresh command); nothing is put on a queue and no
    callback runs. *)
Theorem spawn_failure_stays_in_worker
    os tmpname tm self command timeout ocb w errno self' w' r :
  os ("torsocks"%string :: command) (child_environ tmpname w)
    = SpawnFailed errno ->
  execute os tmpname tm self command timeout ocb w = (self', w', r) ->
  (forall errno', r <> Raise (OSError errno')) /\
  (tm = InTime -> r = Ret (stdout self, stderr self)) /\
  trace w' = trace w /\ queues w' = queues w.
Proof.
  intros Hos. rewrite execute_unfold. cbn zeta.
  rewrite (invoke_process_spawn_failed _ _ _ _ errno) by done.
  cbn [process set_output_callback].
  destruct tm as [|[|]].
  - intros [= <- <- <-]. done.
  - destruct (process self); intros [= <- <- <-]; done.
  - destruct (process self); intros [= <- <- <-]; done.
Qed.

Lemma spawn_failure_stays_in_worker_witness :
  let res :=
    execute os_missing "/tmp/torsocks_a" InTime (new 0 circ1 real_socket)
      ["nonexistent"%string] 10 None world0 in
  (forall errno', res.2 <> Raise (OSError errno')) /\
  (InTime = InTime -> res.2 = Ret (None, None)) /\
  trace res.1.2 = [] /\ queues res.1.2 = ∅.
Proof.
  cbv zeta.
  eapply (spawn_failure_stays_in_worker os_missing "/tmp/torsocks_a" InTime
            (new 0 circ1 real_socket) ["nonexistent"%string] 10 None world0 2);
    reflexivity.
Defined.

(** ** The output pattern matcher *)

(** C8, as stated, fails: the host text matters.  A host containing a colon
    followed by a digit makes the matcher return digits of the host instead
    of the port, and an empty host makes it return nothing. *)
Lemma host_text_matters :
  is_fd (b "7") /\ is_port (b "443") /\
  extract_pattern (disclosure_line (b "7") (b "2001:123::1") (b "443")) pattern
  = Some (b "123") /\
  extract_pattern (disclosure_line (b "7") (b "2001:123::1") (b "443")) pattern
  <> Some (b "443") /\
  extract_pattern (disclosure_line (b "7") (b "") (b "443")) pattern = None.
Proof.
  split; [|split; [|split; [|split]]]; try reflexivity.
  - split; [repeat constructor | simpl; lia].
  - split; [repeat constructor | simpl; lia].
  - vm_compute. discriminate.
Qed.

(** C8, amended.  The matcher is a total function of the line.  On a line
    in which the disclosure pattern does not occur it yields nothing, and on
    a line [Connection on fd <fd> originating from <host>:<port>] whose host
    is a non-empty text without a colon and whose port has one to five
    digits it yields exactly the port, whatever that host is. *)
Theorem matcher_none_or_port line :
  (~ occurs pattern line -> extract_pattern line pattern = None) /\
  (forall fd host port,
     is_fd fd -> is_plain_host host -> is_port port ->
     line = disclosure_line fd host port ->
     extract_pattern line pattern = Some port).
Proof.
  split.
  - apply extract_pattern_None.
  - intros fd host port Hfd Hh Hp ->. by apply extract_disclosure_line.
Qed.

Lemma matcher_none_or_port_witness :
  extract_pattern (b "HTTP/1.1 200 OK") pattern = None /\
  extract_pattern sample_line pattern = Some (b "54321").
Proof.
  split.
  - apply (proj1 (matcher_none_or_port (b "HTTP/1.1 200 OK"))).
    apply extract_pattern_None. reflexivity.
  - apply (proj2 (matcher_none_or_port sample_line)
             (b "7") (b "10.0.0.1") (b "54321")).
    + split; [repeat constructor | simpl; lia].
    + split; [repeat constructor | simpl; lia].
    + split; [repeat constructor | simpl; lia].
    + reflexivity.
Defined.

(** ** Timeout *)

(** C4.  [execute] does not always return: when the join times out before
    the worker has bound [self.process], a fresh command still has [None]
    there, and [self.process.kill()] raises [AttributeError] with nothing
    killed and nothing captured.  When the join times out after the process
    was bound, [execute] does what its comments announce: it kills that
    process and returns the buffers. *)
Theorem execute_raises_when_timeout_precedes_spawn :
  let fresh := new 0 circ1 real_socket in
  let early :=
    execute os_three_lines "/tmp/torsocks_a" (TimedOut false) fresh
      ["sleep"; "30"]%string 1 None world0 in
  let late :=
    execute os_three_lines "/tmp/torsocks_a" (TimedOut true) fresh
      ["sleep"; "30"]%string 1 None world0 in
  process fresh = None /\
  (early.2 = Raise (AttributeError "'NoneType' object has no attribute 'kill'") /\
   killed early.1.2 = [] /\
   (process early.1.1, stdout early.1.1, stderr early.1.1) = (None, None, None)) /\
  (late.2 = Ret (Some three_lines, None) /\
   killed late.1.2 = [["torsocks"; "sleep"; "30"]%string]).
Proof. cbv zeta. repeat split; reflexivity. Qed.

(** ** Correlation events *)

(** C3, as stated, fails: the reading loop only runs when a callback was
    given.  Without one, a command that prints one disclosure line leaves the
    queue empty; the line ends up, unexamined, in the returned output. *)
Lemma no_callback_no_event :
  let '(_, w', r) :=
    execute os_one_line "/tmp/torsocks_a" InTime (new 0 circ1 real_socket)
      ["curl"%string] 10 None world0 in
  disclosures (split_lines (sample_line ++ nl)) = 1 /\
  queue_contents 0 w' = [] /\
  r = Ret (Some (sample_line ++ nl), None).
Proof. vm_compute. done. Qed.

(** C3, amended.  When [execute] is given a callback that answers true on
    every line of the command's output, then, whenever [execute] returns,
    every port-disclosure line of that output has produced one event: the
    queue has received, in line order, the event made of the command's
    circuit id and the port extracted from the line, so as many events as
    there are disclosure lines.  When no callback is given, no line is
    examined and the queue is left as it was. *)
Theorem execute_enqueues_every_disclosure
    os tmpname tm self command timeout ocb w output self' w' v :
  os ("torsocks"%string :: command) (child_environ tmpname w) = Spawned output ->
  execute os tmpname tm self command timeout ocb w = (self', w', Ret v) ->
  match ocb with
  | Some cb =>
      keeps_reading cb [] (split_lines output) = true ->
      queue_contents (queue self) w' =
        queue_contents (queue self) w
        ++ map (event_for self) (ports_of (split_lines output)) /\
      length (ports_of (split_lines output)) = disclosures (split_lines output)
  | None => queue_contents (queue self) w' = queue_contents (queue self) w
  end.
Proof.
  intros Hos Hex. apply execute_effects in Hex as [_ Hq].
  cbv zeta in Hq. unfold lines_handled in Hq.
  rewrite armed_environ, Hos in Hq. cbn [output_callback set_output_callback] in Hq.
  destruct ocb as [cb|].
  - intros Hk. rewrite handled_all in Hq by (done || apply split_lines_nonempty).
    by rewrite Hq, events_of_ports, disclosures_ports.
  - by rewrite Hq, app_nil_r.
Qed.

Lemma execute_enqueues_every_disclosure_witness :
  let res :=
    execute os_three_lines "/tmp/torsocks_a" InTime (new 0 circ1 real_socket)
      ["curl"%string] 10 (Some cb_continue) patched_world in
  queue_contents 0 res.1.2 =
    [(circ1, ("127.0.0.1"%string, 54321%Z)); (circ1, ("127.0.0.1"%string, 443%Z))].
Proof.
  cbv zeta.
  refine (proj1 (execute_enqueues_every_disclosure os_three_lines
                   "/tmp/torsocks_a" InTime (new 0 circ1 real_socket)
                   ["curl"%string] 10 (Some cb_continue) patched_world
                   three_lines _ _ _ _ _ _)); reflexivity.
Defined.



(** C7.  When the callback answers false on line [k], reading stops there:
    only the first [k] lines are matched and handed to the callback, only
    their events are queued, and the lines after [k] are left unread for
    [communicate], which returns them as the captured output. *)
Theorem callback_false_stops_reading
    os self cb command w output pre lk post self' w' r :
  os command (os_environ w) = Spawned output ->
  output_callback self = Some cb ->
  split_lines output = pre ++ lk :: post ->
  keeps_reading cb [] pre = true ->
  cb_result (cb (map strip pre) (strip lk)) = Ret false ->
  invoke_process os self command w = (self', w', r) ->
  r = Ret tt /\
  trace w' = trace w ++ actions_of self (pre ++ [lk]) /\
  queue_contents (queue self) w' =
    queue_contents (queue self) w ++ events_of self (pre ++ [lk]) /\
  stdout self' = Some (concat post).
Proof.
  intros Hos Hcb Hsplit Hk Hres Hinv.
  assert (cb_result (cb (map strip pre) (strip lk)) <> Ret true) as Hne
    by (by rewrite Hres).
  pose proof (invoke_process_effects _ _ _ _ _ _ _ Hinv) as (Ht & Hq & _).
  destruct (invoke_process_stops os self cb command w output pre lk post
              Hos Hcb Hsplit Hk Hne) as [w1 Hrun].
  rewrite Hres, Hinv in Hrun. injection Hrun as -> -> ->.
  assert (lines_handled os self command w = pre ++ [lk]) as Hh.
  { unfold lines_handled. rewrite Hos, Hcb, Hsplit.
    apply handled_stop; [|done|done].
    rewrite <- Hsplit. apply split_lines_nonempty. }
  rewrite Hh in Ht, Hq. done.
Qed.

Lemma callback_false_stops_reading_witness :
  let res :=
    invoke_process os_three_lines
      (set_output_callback (Some cb_stop_at_second) (new 0 circ1 real_socket))
      ["torsocks"; "curl"]%string world0 in
  res.2 = Ret tt /\
  trace res.1.2 =
    [ACallback (b "hello");
     APut 0 (circ1, ("127.0.0.1"%string, 54321%Z)) real_socket;
     ACallback sample_line] /\
  queue_contents 0 res.1.2 = [(circ1, ("127.0.0.1"%string, 54321%Z))] /\
  stdout res.1.1 = Some (second_line ++ nl).
Proof.
  cbv zeta.
  refine (callback_false_stops_reading os_three_lines
            (set_output_callback (Some cb_stop_at_second) (new 0 circ1 real_socket))
            cb_stop_at_second ["torsocks"; "curl"]%string world0
            three_lines [b "hello" ++ nl] (sample_line ++ nl) [second_line ++ nl]
            _ _ _ _ _ _ _ _ _); reflexivity.
Defined.

(** C9.  Take a command built by [Command.__init__] from a queue, a
    circuit id and an original socket constructor, in whatever state its
    other attributes are.  Every [queue.put] of [invoke_process] happens
    while [socket.socket] is bound to that constructor, goes to that queue
    and carries that circuit id, whatever [socket.socket] was bound to when
    the line was read.  The block that handles a line leaves [socket.socket]
    bound to what it was bound to before the block, so that the callback is
    called under the earlier binding; and after the whole call
    [socket.socket] is bound to what the callback last bound it to, or else
    to what it was bound to on entry: the puts leave nothing behind. *)
Theorem events_use_original_socket
    os q0 circ origsock p out err ocb command w self' w' r :
  let self :=
    set_output_callback ocb
      (set_output out err (set_process p (new q0 circ origsock))) in
  invoke_process os self command w = (self', w', r) ->
  (exists acts,
     trace w' = trace w ++ acts /\
     forall q ev sock, In (APut q ev sock) acts ->
       q = q0 /\ sock = origsock /\ ev.1 = circ) /\
  (forall line w0,
     socket_socket (scan self line w0) = socket_socket w0 /\
     forall port, extract_pattern line pattern = Some port ->
       trace (scan self line w0) =
         trace w0
         ++ [APut q0 (circ, ("127.0.0.1"%string, int_of_digits port)) origsock]) /\
  socket_socket w' =
    match os command (os_environ w), ocb with
    | Spawned output, Some cb =>
        rebound cb [] (split_lines output) (socket_socket w)
    | _, _ => socket_socket w
    end /\
  (queue self', origsocket self', circ_id self') = (q0, origsock, circ).
Proof.
  intros self Hinv.
  pose proof (invoke_process_socket _ _ _ _ _ _ _ Hinv) as Hsock.
  apply invoke_process_effects in Hinv as (Ht & _ & _ & Hself).
  split; [|split; [|split]].
  - eexists. split; [exact Ht|].
    intros q ev sock Hin. unfold actions_of in Hin.
    apply in_flat_map in Hin as (raw & _ & Hin).
    unfold line_actions in Hin. apply in_app_or in Hin as [Hin|Hin].
    + apply in_map_iff in Hin as (ev' & [= <- <- <-] & Hev).
      unfold line_events in Hev.
      destruct (extract_pattern (strip raw) pattern); [|done].
      destruct Hev as [<-|[]]. done.
    + by destruct Hin as [|[]].
  - intros line w0. split; [apply scan_socket|].
    intros port E. by rewrite (scan_emits _ _ _ _ E), emit_trace.
  - exact Hsock.
  - exact Hself.
Qed.

Lemma events_use_original_socket_witness :
  let self := set_output_callback (Some cb_continue) (new 0 circ1 real_socket) in
  let res :=
    invoke_process os_three_lines self ["torsocks"; "curl"]%string
      patched_world in
  socket_socket patched_world = torsocket /\
  trace res.1.2 =
    [ACallback (b "hello");
     APut 0 (circ1, ("127.0.0.1"%string, 54321%Z)) real_socket;
     ACallback sample_line;
     APut 0 (circ1, ("127.0.0.1"%string, 443%Z)) real_socket;
     ACallback second_line] /\
  socket_socket (scan self sample_line patched_world) = torsocket /\
  socket_socket res.1.2 = torsocket.
Proof.
  intros self res.
  pose proof (events_use_original_socket os_three_lines 0 circ1 real_socket
                None None None (Some cb_continue)
                ["torsocks"; "curl"]%string patched_world
                res.1.1 res.1.2 res.2 eq_refl)
    as (_ & Hscan & Hsock & _).
  split; [reflexivity|]. split; [reflexivity|].
  split; [exact (proj1 (Hscan sample_line patched_world))|].
  exact Hsock.
Defined.

(** C10.  Every event that [invoke_process] puts on the queue has the
    constant text [127.0.0.1] as its address: the events added are the
    images of a list of extracted ports under
    [port ↦ (circ_id, ("127.0.0.1", int(port)))].  On a disclosure line the
    event is the same whatever the host text of the line is. *)
Theorem event_address_is_loopback os self command w self' w' r :
  invoke_process os self command w = (self', w', r) ->
  (exists ports,
     queue_contents (queue self) w' =
       queue_contents (queue self) w
       ++ map (fun port => (circ_id self, ("127.0.0.1"%string, int_of_digits port)))
            ports) /\
  (forall fd host port w0,
     is_fd fd -> is_plain_host host -> is_port port ->
     queue_contents (queue self) (scan self (disclosure_line fd host port) w0) =
       queue_contents (queue self) w0
       ++ [(circ_id self, ("127.0.0.1"%string, int_of_digits port))]).
Proof.
  intros Hinv.
  apply invoke_process_effects in Hinv as (_ & Hq & _ & _).
  split.
  - exists (ports_of (lines_handled os self command w)).
    by rewrite Hq, events_of_ports.
  - intros fd host port w0 Hfd Hh Hp.
    rewrite scan_queue. unfold line_events.
    by rewrite extract_disclosure_line.
Qed.

Lemma event_address_is_loopback_witness :
  let self := set_output_callback (Some cb_continue) (new 0 circ1 real_socket) in
  queue_contents 0 (scan self sample_line world0)
  = [(circ1, ("127.0.0.1"%string, 54321%Z))] /\
  queue_contents 0
    (scan self (disclosure_line (b "7") (b "example.org") (b "54321")) world0)
  = [(circ1, ("127.0.0.1"%string, 54321%Z))].
Proof.
  cbv zeta.
  pose proof (event_address_is_loopback os_one_line
                (set_output_callback (Some cb_continue) (new 0 circ1 real_socket))
                ["torsocks"; "curl"]%string world0 _ _ _ eq_refl)
    as [_ Hline].
  split.
  - refine (Hline (b "7") (b "10.0.0.1") (b "54321") world0 _ _ _);
      (split; [repeat constructor | simpl; lia]).
  - refine (Hline (b "7") (b "example.org") (b "54321") world0 _ _ _);
      (split; [repeat constructor | simpl; lia]).
Defined.

(** ** A callback that raises *)

(** C5, as stated, fails: a [SOCKSv5Error] raised by the callback is not
    handled like the end of the stream.  Nothing is logged about it, and
    [communicate] is skipped, so [execute] returns [(None, None)], whereas a
    callback that stops reading on the same line gets the unread output. *)
Lemma callback_error_not_end_of_stream :
  let '(_, w1, r1) :=
    execute os_three_lines "/tmp/torsocks_a" InTime (new 0 circ1 real_socket)
      ["curl"%string] 10 (Some cb_socks_error) world0 in
  let '(_, w2, r2) :=
    execute os_three_lines "/tmp/torsocks_a" InTime (new 0 circ1 real_socket)
      ["curl"%string] 10 (Some cb_stop) world0 in
  r1 = Ret (None, None) /\
  r2 = Ret (Some (sample_line ++ nl ++ second_line ++ nl), None) /\
  log_records w1 =
    [(Debug, MsgInvoking ["torsocks"; "curl"]%string ∅);
     (Debug, MsgTempFile "/tmp/torsocks_a")].
Proof. vm_compute. done. Qed.

(** C5, amended.  When the callback raises a [SOCKSv5Error] on line [k],
    reading stops there: only the first [k] lines are matched and handed to
    the callback.  The error ends the worker thread and never reaches the
    caller of [execute]; it is neither caught nor logged, and [communicate]
    is not run, so whenever [execute] returns, and it does when the worker
    is found finished, it returns the command's [stdout] and [stderr]
    attributes as they were before the call. *)
Theorem callback_error_ends_worker
    os tmpname tm self command timeout cb w output pre lk post msg self' w' r :
  os ("torsocks"%string :: command) (child_environ tmpname w) = Spawned output ->
  split_lines output = pre ++ lk :: post ->
  keeps_reading cb [] pre = true ->
  cb_result (cb (map strip pre) (strip lk)) = Raise (SOCKSv5Error msg) ->
  execute os tmpname tm self command timeout (Some cb) w = (self', w', r) ->
  (forall msg', r <> Raise (SOCKSv5Error msg')) /\
  (forall v, r = Ret v ->
     v = (stdout self, stderr self) /\
     trace w' = trace w ++ actions_of self (pre ++ [lk])) /\
  (tm = InTime ->
   r = Ret (stdout self, stderr self) /\
   log_records w' =
     log_records w
     ++ [(Debug, MsgInvoking ("torsocks"%string :: command) (os_environ w));
         (Debug, MsgTempFile tmpname)]).
Proof.
  intros Hos Hsplit Hk Hres Hex.
  assert (cb_result (cb (map strip pre) (strip lk)) <> Ret true) as Hne
    by (by rewrite Hres).
  assert (lines_handled os (set_output_callback (Some cb) self)
            ("torsocks"%string :: command) (armed tmpname command w)
          = pre ++ [lk]) as Hh.
  { unfold lines_handled. rewrite armed_environ, Hos.
    cbn [output_callback set_output_callback]. rewrite Hsplit.
    apply handled_stop; [|done|done].
    rewrite <- Hsplit. apply split_lines_nonempty. }
  assert (forall v, r = Ret v ->
            trace w' = trace w ++ actions_of self (pre ++ [lk])) as Htrace.
  { intros v ->. apply execute_effects in Hex as [Ht _].
    cbv zeta in Ht. by rewrite Hh in Ht. }
  rewrite execute_unfold in Hex. cbv zeta in Hex.
  destruct (invoke_process_stops os (set_output_callback (Some cb) self) cb
              ("torsocks"%string :: command) (armed tmpname command w)
              output pre lk post) as [w1 Hrun]; try done.
  rewrite Hres in Hrun.
  pose proof (invoke_process_effects _ _ _ _ _ _ _ Hrun) as (_ & _ & Hl & _).
  rewrite Hrun in Hex. rewrite armed_log in Hl.
  cbn [process stdout stderr set_process set_output_callback] in Hex.
  destruct tm as [|[|]].
  - injection Hex as <- <- <-.
    split; [done|]. split; [|done].
    intros v [= <-]. split; [done|]. by eapply Htrace.
  - injection Hex as <- <- <-.
    split; [done|]. split; [|done].
    intros v [= <-]. split; [done|]. by eapply Htrace.
  - destruct (process self); injection Hex as <- <- <-.
    + split; [done|]. split; [|done].
      intros v [= <-]. split; [done|]. by eapply Htrace.
    + split; [done|]. split; done.
Qed.

Lemma callback_error_ends_worker_witness :
  let res :=
    execute os_three_lines "/tmp/torsocks_a" InTime (new 0 circ1 real_socket)
      ["curl"%string] 10 (Some cb_socks_error) world0 in
  (forall msg', res.2 <> Raise (SOCKSv5Error msg')) /\
  (forall v, res.2 = Ret v ->
     v = (None, None) /\ trace res.1.2 = [ACallback (b "hello")]) /\
  (InTime = InTime ->
   res.2 = Ret (None, None) /\
   log_records res.1.2 =
     [(Debug, MsgInvoking ["torsocks"; "curl"]%string ∅);
      (Debug, MsgTempFile "/tmp/torsocks_a")]).
Proof.
  cbv zeta.
  refine (callback_error_ends_worker os_three_lines "/tmp/torsocks_a" InTime
            (new 0 circ1 real_socket) ["curl"%string] 10 cb_socks_error world0
            three_lines [] (b "hello" ++ nl)
            [sample_line ++ nl; second_line ++ nl] "general failure"
            _ _ _ _ _ _ _ _); reflexivity.
Defined.

(** * Further properties of the code *)

(** ** What the reading loop leaves alone *)

Lemma scan_frame self line w :
  os_environ (scan self line w) = os_environ w /\
  torsocks_settings (scan self line w) = torsocks_settings w /\
  killed (scan self line w) = killed w.
Proof.
  unfold scan. destruct (extract_pattern line pattern); [|done].
  by destruct (truthy _).
Qed.

Lemma call_back_frame cb argv hist line w :
  let w' := (call_back cb argv hist line w).1 in
  os_environ w' = os_environ w /\
  torsocks_settings w' = torsocks_settings w /\
  killed w' = killed w ++ (if cb_kill (cb hist line) then [argv] else []) /\
  socket_socket w' = default (socket_socket w) (cb_socket (cb hist line)).
Proof.
  unfold call_back; simpl.
  destruct (cb_kill (cb hist line)), (cb_socket (cb hist line)); simpl;
    by rewrite ?app_nil_r.
Qed.

Lemma read_loop_frame self cb argv hist lines w rest w' r :
  read_loop self cb argv hist lines w = (rest, w', r) ->
  os_environ w' = os_environ w /\
  torsocks_settings w' = torsocks_settings w /\
  (forall q, q <> queue self -> queue_contents q w' = queue_contents q w) /\
  (no_rebind cb -> socket_socket w' = socket_socket w) /\
  (no_kill cb -> killed w' = killed w).
Proof.
  revert hist w; induction lines as [|raw lines IH]; intros hist w;
    cbn [read_loop].
  - intros [= <- <- <-]. done.
  - destruct raw as [|c raw]; [intros [= <- <- <-]; done|].
    set (line := strip (c :: raw)).
    pose proof (scan_frame self line w) as (He0 & Hs0 & Hk0).
    pose proof (call_back_frame cb argv hist line (scan self line w))
      as (He & Hs & Hk & Hsock).
    pose proof (call_back_effects cb argv hist line (scan self line w))
      as (_ & Hq & _ & Hr).
    destruct (call_back cb argv hist line (scan self line w)) as [w1 res].
    simpl in He, Hs, Hk, Hsock, Hq, Hr. subst res.
    assert (os_environ w1 = os_environ w /\
            torsocks_settings w1 = torsocks_settings w /\
            (forall q, q <> queue self ->
               queue_contents q w1 = queue_contents q w) /\
            (no_rebind cb -> socket_socket w1 = socket_socket w) /\
            (no_kill cb -> killed w1 = killed w)) as (H1 & H2 & H3 & H4 & H5).
    { split; [congruence|]. split; [congruence|]. split; [|split].
      - intros q Hne. unfold queue_contents at 1. rewrite Hq.
        by apply scan_queue_other.
      - intros Hcb. by rewrite Hsock, (Hcb hist line), scan_socket.
      - intros Hcb. by rewrite Hk, (Hcb hist line), app_nil_r. }
    destruct (cb_result (cb hist line)) as [[|]|e].
    + intros H. apply IH in H as (G1 & G2 & G3 & G4 & G5).
      split; [congruence|]. split; [congruence|]. split; [|split].
      * intros q Hne. by rewrite G3, H3.
      * intros Hcb. by rewrite G4, H4.
      * intros Hcb. by rewrite G5, H5.
    + by intros [= <- <- <-].
    + by intros [= <- <- <-].
Qed.

Lemma read_loop_rest self cb argv hist lines w rest w' r :
  Forall (fun l => l <> []) lines ->
  read_loop self cb argv hist lines w = (rest, w', r) ->
  lines = handled cb hist lines ++ rest.
Proof.
  intros Hne. revert hist w.
  induction Hne as [|raw lines Hraw _ IH]; intros hist w; cbn [read_loop handled].
  - by intros [= <- <- <-].
  - destruct raw as [|c raw]; [done|].
    pose proof (call_back_effects cb argv hist (strip (c :: raw))
                  (scan self (strip (c :: raw)) w)) as (_ & _ & _ & Hr).
    destruct (call_back cb argv hist (strip (c :: raw))
                (scan self (strip (c :: raw)) w)) as [w1 res].
    simpl in Hr; subst res.
    destruct (cb_result (cb hist (strip (c :: raw)))) as [[|]|e].
    + intros H. apply IH in H. simpl. by rewrite <- H.
    + by intros [= <- <- <-].
    + by intros [= <- <- <-].
Qed.

Lemma invoke_process_frame os self command w self' w' r :
  invoke_process os self command w = (self', w', r) ->
  os_environ w' = os_environ w /\
  torsocks_settings w' = torsocks_settings w /\
  (forall q, q <> queue self -> queue_contents q w' = queue_contents q w) /\
  ((forall cb, output_callback self = Some cb -> no_rebind cb) ->
   socket_socket w' = socket_socket w) /\
  ((forall cb, output_callback self = Some cb -> no_kill cb) ->
   killed w' = killed w) /\
  output_callback self' = output_callback self.
Proof.
  unfold invoke_process.
  destruct (os command (os_environ w)) as [output|errno].
  2:{ by intros [= <- <- <-]. }
  cbn [output_callback set_process].
  destruct (output_callback self) as [cb|] eqn:Hcb.
  2:{ by intros [= <- <- <-]. }
  destruct (read_loop _ cb command [] (split_lines output) w)
    as [[rest w1] r1] eqn:Hloop.
  apply read_loop_frame in Hloop as (H1 & H2 & H3 & H4 & H5).
  cbn [queue set_process] in H3.
  destruct r1; intros [= <- <- <-]; (repeat split; eauto).
Qed.

(** ** More on the closure of [run_python_over_tor] *)

(** X1.  When the wrapped function returns normally, the closure returns
    normally with [socket.socket] bound to what it was bound to before the
    call, even if the function itself rebound it; the rest of the state is as
    the function left it. *)
Theorem closure_return_puts_back_prior_socket
    {A} queue circ_id socks_port (func : pyfunc A) args w w1 :
  func args (installed queue circ_id socks_port w) = (w1, Ret tt) ->
  let res := closure queue circ_id socks_port func args w in
  res.2 = Ret tt /\
  socket_socket res.1 = socket_socket w /\
  res.1 = set_socket (socket_socket w) w1.
Proof. intros H. cbv zeta. by rewrite (closure_return_restores _ _ _ _ _ _ _ H). Qed.

Lemma closure_return_puts_back_prior_socket_witness :
  let res := closure 0 circ1 9050 func_rebinds tt patched_world in
  res.2 = Ret tt /\
  socket_socket res.1 = torsocket /\
  res.1 = set_socket torsocket
            (set_socket (other_socket 7) (installed 0 circ1 9050 patched_world)).
Proof.
  exact (closure_return_puts_back_prior_socket 0 circ1 9050 func_rebinds tt
           patched_world _ eq_refl).
Defined.

(** X2.  The closure raises only what the wrapped function raised, and
    never a [SOCKSv5Error]: when it raises, the function raised that very
    exception, and the state is exactly the one the function left, with no
    log record added and [socket.socket] not put back. *)
Theorem closure_raises_what_func_raised
    {A} queue circ_id socks_port (func : pyfunc A) args w e :
  (closure queue circ_id socks_port func args w).2 = Raise e ->
  (forall msg, e <> SOCKSv5Error msg) /\
  func args (installed queue circ_id socks_port w)
  = ((closure queue circ_id socks_port func args w).1, Raise e).
Proof.
  unfold closure, installed.
  destruct (func args _) as [w1 [[]|e1]]; simpl; [done|].
  destruct e1; simpl; intros [= <-]; done.
Qed.

Lemma closure_raises_what_func_raised_witness :
  (forall msg, OtherError "ValueError" <> SOCKSv5Error msg) /\
  func_other_error tt (installed 0 circ1 9050 world0)
  = ((closure 0 circ1 9050 func_other_error tt world0).1,
     Raise (OtherError "ValueError")).
Proof.
  exact (closure_raises_what_func_raised 0 circ1 9050 func_other_error tt
           world0 (OtherError "ValueError") eq_refl).
Defined.

(** X3.  The closure never resets the [torsocks] settings: if the wrapped
    function leaves them alone, then after the call, however it ends, the
    default proxy is still [("127.0.0.1", socks_port)] and the queue and
    circuit id are still those of this closure. *)
Theorem closure_keeps_router_settings
    {A} queue circ_id socks_port (func : pyfunc A) args w :
  torsocks_settings (func args (installed queue circ_id socks_port w)).1
  = torsocks_settings (installed queue circ_id socks_port w) ->
  torsocks_settings (closure queue circ_id socks_port func args w).1
  = (Some ("127.0.0.1"%string, socks_port), Some queue, Some circ_id).
Proof.
  unfold closure. fold (installed queue circ_id socks_port w).
  destruct (func args _) as [w1 res]. cbn [fst]. intros H.
  transitivity (torsocks_settings w1); [|by rewrite H].
  by destruct res as [[]|[]].
Qed.

Lemma closure_keeps_router_settings_witness :
  torsocks_settings (closure 0 circ1 9050 func_socks_error tt world0).1
  = (Some ("127.0.0.1"%string, 9050%Z), Some 0, Some circ1).
Proof.
  exact (closure_keeps_router_settings 0 circ1 9050 func_socks_error tt world0
           eq_refl).
Defined.

(** X4.  Once a wrapped function has raised [SOCKSv5Error] without touching
    [socket.socket], a later call of a closure whose function returns
    normally puts back [torsocks.torsocket]: the constructor that was bound
    before the first call is not seen again. *)
Theorem closure_after_socks_error_keeps_patch
    {A} q1 c1 p1 q2 c2 p2 (func1 func2 : pyfunc A) args1 args2 w w1 msg w2 :
  func1 args1 (installed q1 c1 p1 w) = (w1, Raise (SOCKSv5Error msg)) ->
  socket_socket w1 = torsocket ->
  func2 args2
    (installed q2 c2 p2 (closure q1 c1 p1 func1 args1 w).1) = (w2, Ret tt) ->
  let after1 := closure q1 c1 p1 func1 args1 w in
  let after2 := closure q2 c2 p2 func2 args2 after1.1 in
  after1.2 = Ret tt /\ after2.2 = Ret tt /\
  socket_socket after2.1 = torsocket.
Proof.
  intros H1 Hs H2. cbv zeta.
  rewrite (closure_return_restores _ _ _ _ _ _ _ H2).
  rewrite (closure_socks_error_returns _ _ _ _ _ _ _ _ H1). done.
Qed.

Lemma closure_after_socks_error_keeps_patch_witness :
  let after1 := closure 0 circ1 9050 func_socks_error tt world0 in
  let after2 := closure 0 circ1 9050 func_ok tt after1.1 in
  after1.2 = Ret tt /\ after2.2 = Ret tt /\
  socket_socket world0 = real_socket /\
  socket_socket after2.1 = torsocket.
Proof.
  pose proof (closure_after_socks_error_keeps_patch 0 circ1 9050 0 circ1 9050
                func_socks_error func_ok tt tt world0 _ _ _
                eq_refl eq_refl eq_refl) as (H1 & H2 & H3).
  cbv zeta. split; [exact H1|]. split; [exact H2|].
  split; [reflexivity | exact H3].
Defined.

(** ** More on [invoke_process] and [execute] *)

(** X5.  Without a callback, a command that starts and finishes in time
    gives back its whole merged output as [stdout] and [None] as [stderr];
    no callback runs and no queue is touched. *)
Theorem execute_no_callback_returns_output
    os tmpname self command timeout w output self' w' r :
  os ("torsocks"%string :: command) (child_environ tmpname w) = Spawned output ->
  execute os tmpname InTime self command timeout None w = (self', w', r) ->
  r = Ret (Some output, None) /\ trace w' = trace w /\ queues w' = queues w.
Proof.
  intros Hos. rewrite execute_unfold. cbv zeta.
  rewrite (invoke_process_no_callback _ _ _ _ output) by done.
  by intros [= <- <- <-].
Qed.

Lemma execute_no_callback_returns_output_witness :
  let res :=
    execute os_three_lines "/tmp/torsocks_a" InTime (new 0 circ1 real_socket)
      ["curl"%string] 10 None world0 in
  res.2 = Ret (Some three_lines, None) /\
  trace res.1.2 = [] /\ queues res.1.2 = ∅.
Proof.
  cbv zeta.
  refine (execute_no_callback_returns_output os_three_lines "/tmp/torsocks_a"
            (new 0 circ1 real_socket) ["curl"%string] 10 world0 three_lines
            _ _ _ _ _); reflexivity.
Defined.

(** X6.  With a callback that answers true on every line, the reading loop
    consumes the whole output: a command that finishes in time gives back
    the empty string as [stdout], not its output. *)
Theorem execute_callback_consumes_output
    os tmpname self command timeout cb w output self' w' r :
  os ("torsocks"%string :: command) (child_environ tmpname w) = Spawned output ->
  keeps_reading cb [] (split_lines output) = true ->
  execute os tmpname InTime self command timeout (Some cb) w = (self', w', r) ->
  r = Ret (Some [], None).
Proof.
  intros Hos Hk. rewrite execute_unfold. cbv zeta.
  destruct (invoke_process_to_end os (set_output_callback (Some cb) self) cb
              ("torsocks"%string :: command) (armed tmpname command w) output)
    as [w1 ->]; try done.
  by intros [= <- <- <-].
Qed.

Lemma execute_callback_consumes_output_witness :
  (execute os_three_lines "/tmp/torsocks_a" InTime (new 0 circ1 real_socket)
     ["curl"%string] 10 (Some cb_continue) world0).2
  = Ret (Some [], None).
Proof.
  refine (execute_callback_consumes_output os_three_lines "/tmp/torsocks_a"
            (new 0 circ1 real_socket) ["curl"%string] 10 cb_continue world0
            three_lines _ _ _ _ _ _); reflexivity.
Defined.

(** X7.  No output is lost or duplicated: whenever [invoke_process] returns
    normally, the lines handled by the loop followed by the captured
    [stdout] make up exactly the output of the process, and [stderr] is
    [None]. *)
Theorem invoke_process_accounts_for_output os self command w output self' w' :
  os command (os_environ w) = Spawned output ->
  invoke_process os self command w = (self', w', Ret tt) ->
  exists out,
    stdout self' = Some out /\ stderr self' = None /\
    concat (lines_handled os self command w) ++ out = output.
Proof.
  intros Hos. unfold invoke_process, lines_handled. rewrite Hos.
  cbn [output_callback set_process].
  destruct (output_callback self) as [cb|].
  - destruct (read_loop _ cb command [] (split_lines output) w)
      as [[rest w1] r1] eqn:Hloop.
    apply read_loop_rest in Hloop; [|apply split_lines_nonempty].
    destruct r1; [|done]. intros [= <- <-].
    exists (concat rest). split; [done|]. split; [done|].
    by rewrite <- concat_app, <- Hloop, concat_split_lines.
  - intros [= <- <-]. exists (concat (split_lines output)).
    by rewrite concat_split_lines.
Qed.

Lemma invoke_process_accounts_for_output_witness :
  exists out,
    stdout (invoke_process os_three_lines
              (set_output_callback (Some cb_stop_at_second)
                 (new 0 circ1 real_socket))
              ["torsocks"; "curl"]%string world0).1.1 = Some out /\
    stderr (invoke_process os_three_lines
              (set_output_callback (Some cb_stop_at_second)
                 (new 0 circ1 real_socket))
              ["torsocks"; "curl"]%string world0).1.1 = None /\
    concat [b "hello" ++ nl; sample_line ++ nl] ++ out = three_lines.
Proof.
  refine (invoke_process_accounts_for_output os_three_lines
            (set_output_callback (Some cb_stop_at_second) (new 0 circ1 real_socket))
            ["torsocks"; "curl"]%string world0 three_lines _ _ _ _);
    reflexivity.
Defined.

(** X8.  [execute] writes two debug records, the invocation with the
    environment as it was on entry and the name of the temporary file, and a
    third one, the kill, exactly when the join timed out; [invoke_process]
    and the reading loop write none. *)
Theorem execute_log_records os tmpname tm self command timeout ocb w self' w' r :
  execute os tmpname tm self command timeout ocb w = (self', w', r) ->
  log_records w' = log_records w ++ execute_log tmpname tm command timeout w.
Proof.
  rewrite execute_unfold. cbv zeta.
  destruct (invoke_process os (set_output_callback ocb self)
              ("torsocks"%string :: command) (armed tmpname command w))
    as [[self1 w1] r1] eqn:Hinv.
  apply invoke_process_effects in Hinv as (_ & _ & Hl & _).
  rewrite armed_log in Hl. unfold execute_log.
  destruct tm as [|[|]].
  - intros [= <- <- <-]. by rewrite app_nil_r.
  - destruct (process self1); intros [= <- <- <-]; simpl;
      by rewrite Hl, <- app_assoc.
  - destruct (process (set_output_callback ocb self)); intros [= <- <- <-].
    + simpl. by rewrite Hl, <- app_assoc.
    + change (log_records (logger Debug (MsgKilling timeout)
                             (armed tmpname command w)))
        with (log_records (armed tmpname command w)
              ++ [(Debug, MsgKilling timeout)]).
      by rewrite armed_log, <- app_assoc.
Qed.

Lemma execute_log_records_witness :
  log_records
    (execute os_three_lines "/tmp/torsocks_a" (TimedOut true)
       (new 0 circ1 real_socket) ["curl"%string] 10 (Some cb_continue)
       world0).1.2
  = [(Debug, MsgInvoking ["torsocks"; "curl"]%string ∅);
     (Debug, MsgTempFile "/tmp/torsocks_a");
     (Debug, MsgKilling 10)].
Proof.
  refine (execute_log_records os_three_lines "/tmp/torsocks_a" (TimedOut true)
            (new 0 circ1 real_socket) ["curl"%string] 10 (Some cb_continue)
            world0 _ _ _ _); reflexivity.
Defined.

(** X9.  [execute] asks the operating system for one thing only: to start
    [torsocks] followed by the given arguments, in the environment of the
    interpreter with [TORSOCKS_CONF_FILE] set to the name of the temporary
    file and [TORSOCKS_LOG_LEVEL] set to [5], every other variable being as
    it was. *)
Theorem execute_spawns_torsocks os tmpname tm self command timeout ocb w :
  (forall os',
     os' ("torsocks"%string :: command) (child_environ tmpname w)
     = os ("torsocks"%string :: command) (child_environ tmpname w) ->
     execute os' tmpname tm self command timeout ocb w
     = execute os tmpname tm self command timeout ocb w) /\
  child_environ tmpname w !! "TORSOCKS_CONF_FILE"%string = Some tmpname /\
  child_environ tmpname w !! "TORSOCKS_LOG_LEVEL"%string = Some "5"%string /\
  (forall k, k <> "TORSOCKS_CONF_FILE"%string ->
             k <> "TORSOCKS_LOG_LEVEL"%string ->
             child_environ tmpname w !! k = os_environ w !! k).
Proof.
  split; [|split; [|split]].
  - intros os' Hos. rewrite !execute_unfold. cbv zeta.
    unfold invoke_process. by rewrite armed_environ, Hos.
  - unfold child_environ. rewrite lookup_insert_ne by done.
    apply lookup_insert_eq.
  - unfold child_environ. apply lookup_insert_eq.
  - intros k H1 H2. unfold child_environ.
    by rewrite !lookup_insert_ne.
Qed.

Lemma execute_spawns_torsocks_witness :
  execute os_second_missing "/tmp/torsocks_a" InTime (new 0 circ1 real_socket)
    ["curl"%string] 10 (Some cb_continue) world0
  = execute os_three_lines "/tmp/torsocks_a" InTime (new 0 circ1 real_socket)
      ["curl"%string] 10 (Some cb_continue) world0.
Proof.
  refine (proj1 (execute_spawns_torsocks os_three_lines "/tmp/torsocks_a" InTime
                   (new 0 circ1 real_socket) ["curl"%string] 10
                   (Some cb_continue) world0) os_second_missing _).
  reflexivity.
Defined.

(** X10.  What [execute] leaves behind, however it ends: the two
    environment variables stay set in [os.environ]; the command keeps its
    queue, original socket constructor and circuit id and remembers the
    callback of this call; the [torsocks] settings and every queue other
    than the command's own are untouched. *)
Theorem execute_leaves_behind os tmpname tm self command timeout ocb w self' w' r :
  execute os tmpname tm self command timeout ocb w = (self', w', r) ->
  os_environ w' = child_environ tmpname w /\
  output_callback self' = ocb /\
  (queue self', origsocket self', circ_id self')
  = (queue self, origsocket self, circ_id self) /\
  torsocks_settings w' = torsocks_settings w /\
  (forall q, q <> queue self -> queue_contents q w' = queue_contents q w).
Proof.
  rewrite execute_unfold. cbv zeta.
  destruct (invoke_process os (set_output_callback ocb self)
              ("torsocks"%string :: command) (armed tmpname command w))
    as [[self1 w1] r1] eqn:Hinv.
  pose proof (invoke_process_effects _ _ _ _ _ _ _ Hinv) as (_ & _ & _ & Hid).
  apply invoke_process_frame in Hinv as (He & Hs & Hq & _ & _ & Hcb).
  rewrite armed_environ in He.
  cbn [queue origsocket circ_id output_callback set_output_callback] in *.
  assert (forall q, q <> queue self ->
            queue_contents q w1 = queue_contents q w) as Hq' by exact Hq.
  destruct tm as [|[|]].
  - by intros [= <- <- <-].
  - destruct (process self1); by intros [= <- <- <-].
  - destruct (process (set_output_callback ocb self));
      by intros [= <- <- <-].
Qed.

Lemma execute_leaves_behind_witness :
  let res :=
    execute os_three_lines "/tmp/torsocks_a" InTime (new 0 circ1 real_socket)
      ["curl"%string] 10 (Some cb_continue) world0 in
  os_environ res.1.2 !! "TORSOCKS_LOG_LEVEL"%string = Some "5"%string /\
  queue_contents 1 res.1.2 = [].
Proof.
  intros res.
  pose proof (execute_leaves_behind os_three_lines "/tmp/torsocks_a" InTime
                (new 0 circ1 real_socket) ["curl"%string] 10
                (Some cb_continue) world0 res.1.1 res.1.2 res.2 eq_refl)
    as (He & _ & _ & _ & Hq).
  split.
  - rewrite He. reflexivity.
  - rewrite Hq; [reflexivity | discriminate].
Defined.

(** X11.  When the join times out after the worker has bound
    [self.process], [execute] kills that process, the one started as
    [torsocks] plus the given arguments, and then returns the captured
    buffers just as it would have without the timeout; it does not raise.
    (The callback, if any, is taken not to use the kill handle itself.) *)
Theorem execute_timeout_kills_and_returns
    os tmpname self command timeout ocb w output self' w' r :
  os ("torsocks"%string :: command) (child_environ tmpname w) = Spawned output ->
  match ocb with Some cb => no_kill cb | None => True end ->
  execute os tmpname (TimedOut true) self command timeout ocb w = (self', w', r) ->
  r = Ret (stdout self', stderr self') /\
  r = (execute os tmpname InTime self command timeout ocb w).2 /\
  killed w' = killed w ++ ["torsocks"%string :: command].
Proof.
  intros Hos Hnk. rewrite !execute_unfold. cbv zeta.
  destruct (invoke_process os (set_output_callback ocb self)
              ("torsocks"%string :: command) (armed tmpname command w))
    as [[self1 w1] r1] eqn:Hinv.
  pose proof (invoke_process_frame _ _ _ _ _ _ _ Hinv)
    as (_ & _ & _ & _ & Hk & _).
  assert (exists unread,
            process self1
            = Some (mkProcess ("torsocks"%string :: command) unread)) as [u Hp].
  { revert Hinv. unfold invoke_process. rewrite armed_environ, Hos.
    destruct (match output_callback _ with Some _ => _ | None => _ end)
      as [[rest w2] r2].
    destruct r2; intros [= <- _ _]; eauto. }
  rewrite Hp. intros [= <- <- <-]. split; [done|]. split; [done|].
  unfold kill; simpl. rewrite Hk; [done|].
  cbn [output_callback set_output_callback]. by intros cb ->.
Qed.

Lemma execute_timeout_kills_and_returns_witness :
  let res :=
    execute os_three_lines "/tmp/torsocks_a" (TimedOut true)
      (new 0 circ1 real_socket) ["curl"%string] 10 (Some cb_stop_at_second)
      world0 in
  res.2 = Ret (stdout res.1.1, stderr res.1.1) /\
  res.2 = Ret (Some (second_line ++ nl), None) /\
  killed res.1.2 = [["torsocks"; "curl"]%string].
Proof.
  cbv zeta.
  refine (execute_timeout_kills_and_returns os_three_lines "/tmp/torsocks_a"
            (new 0 circ1 real_socket) ["curl"%string] 10
            (Some cb_stop_at_second) world0 three_lines _ _ _ _ _ _).
  - reflexivity.
  - intros hist line. reflexivity.
  - reflexivity.
Defined.

(** X12.  When the join times out before the worker has bound
    [self.process] and the command has no process from an earlier call,
    [execute] raises [AttributeError]: it calls [kill] on [None]. *)
Theorem execute_timeout_before_spawn_raises
    os tmpname self command timeout ocb w self' w' r :
  process self = None ->
  execute os tmpname (TimedOut false) self command timeout ocb w
  = (self', w', r) ->
  r = Raise (AttributeError "'NoneType' object has no attribute 'kill'").
Proof.
  intros Hp. rewrite execute_unfold. cbv zeta.
  destruct (invoke_process os (set_output_callback ocb self)
              ("torsocks"%string :: command) (armed tmpname command w))
    as [[self1 w1] r1].
  cbn [process set_output_callback]. rewrite Hp. by intros [= <- <- <-].
Qed.

Lemma execute_timeout_before_spawn_raises_witness :
  (execute os_three_lines "/tmp/torsocks_a" (TimedOut false)
     (new 0 circ1 real_socket) ["curl"%string] 10 None world0).2
  = Raise (AttributeError "'NoneType' object has no attribute 'kill'").
Proof.
  refine (execute_timeout_before_spawn_raises os_three_lines "/tmp/torsocks_a"
            (new 0 circ1 real_socket) ["curl"%string] 10 None world0
            _ _ _ _ _); reflexivity.
Defined.

(** X13.  The buffers of a command are only overwritten by a worker that
    gets as far as [communicate]: after a call that returned some output, a
    second call on the same command whose program cannot be started returns
    the output of the first call again. *)
Theorem execute_returns_stale_output_after_failed_spawn
    os1 os2 tmp1 tmp2 self cmd1 cmd2 t1 t2 ocb2 w output errno
    self1 w1 r1 self2 w2 r2 :
  os1 ("torsocks"%string :: cmd1) (child_environ tmp1 w) = Spawned output ->
  execute os1 tmp1 InTime self cmd1 t1 None w = (self1, w1, r1) ->
  os2 ("torsocks"%string :: cmd2) (child_environ tmp2 w1) = SpawnFailed errno ->
  execute os2 tmp2 InTime self1 cmd2 t2 ocb2 w1 = (self2, w2, r2) ->
  r1 = Ret (Some output, None) /\ r2 = r1.
Proof.
  intros Hos1 Hex1 Hos2. rewrite execute_unfold in Hex1. cbv zeta in Hex1.
  rewrite (invoke_process_no_callback _ _ _ _ output) in Hex1 by done.
  injection Hex1 as <- <- <-.
  rewrite execute_unfold. cbv zeta.
  rewrite (invoke_process_spawn_failed _ _ _ _ errno) by done.
  by intros [= <- <- <-].
Qed.

Lemma execute_returns_stale_output_after_failed_spawn_witness :
  let first :=
    execute os_second_missing "/tmp/torsocks_a" InTime
      (new 0 circ1 real_socket) ["curl"%string] 10 None world0 in
  let second :=
    execute os_second_missing "/tmp/torsocks_b" InTime first.1.1
      ["wget"%string] 10 None first.1.2 in
  first.2 = Ret (Some three_lines, None) /\ second.2 = first.2.
Proof.
  cbv zeta.
  refine (execute_returns_stale_output_after_failed_spawn
            os_second_missing os_second_missing
            "/tmp/torsocks_a" "/tmp/torsocks_b" (new 0 circ1 real_socket)
            ["curl"%string] ["wget"%string] 10 10 None world0 three_lines 2
            _ _ _ _ _ _ _ _ _ _); reflexivity.
Defined.

(** ** More on ports and lines *)

Lemma digit_val_range c : is_digit c = true -> (0 <= digit_val c <= 9)%Z.
Proof.
  unfold is_digit, digit_val. intros [H1 H2]%andb_prop.
  apply Nat.leb_le in H1, H2. lia.
Qed.

Lemma int_of_digits_acc s acc :
  in_class is_digit s -> (0 <= acc)%Z ->
  (0 <= fold_left (fun a c => 10 * a + digit_val c) s acc
   < (acc + 1) * 10 ^ Z.of_nat (length s))%Z.
Proof.
  intros Hs. revert acc. induction Hs as [|c s Hc _ IH]; intros acc Hacc.
  - simpl. lia.
  - cbn [fold_left length]. apply digit_val_range in Hc.
    specialize (IH (10 * acc + digit_val c)%Z ltac:(lia)).
    rewrite Nat2Z.inj_succ, Z.pow_succ_r by lia.
    assert (0 < 10 ^ Z.of_nat (length s))%Z by (apply Z.pow_pos_nonneg; lia).
    nia.
Qed.

Lemma int_of_port port :
  is_port port -> (0 <= int_of_digits port <= 99999)%Z.
Proof.
  intros [Hd Hlen].
  pose proof (int_of_digits_acc port 0 Hd ltac:(lia)) as H.
  fold (int_of_digits port) in H.
  assert (10 ^ Z.of_nat (length port) <= 10 ^ 5)%Z
    by (apply Z.pow_le_mono_r; lia).
  lia.
Qed.

(** X14.  Every port that [invoke_process] puts on the queue is an integer
    between 0 and 99999: the capture group takes at most five digits, and
    nothing narrows the value down to the range of port numbers. *)
Theorem event_ports_are_bounded os self command w self' w' r :
  invoke_process os self command w = (self', w', r) ->
  exists evs,
    queue_contents (queue self) w' = queue_contents (queue self) w ++ evs /\
    Forall (fun ev : Event => (0 <= ev.2.2 <= 99999)%Z) evs.
Proof.
  intros Hinv. apply invoke_process_effects in Hinv as (_ & Hq & _).
  eexists. split; [exact Hq|].
  rewrite events_of_ports. apply Forall_map, Forall_forall.
  intros port Hin. unfold ports_of in Hin.
  apply list_elem_of_omap in Hin as (raw & _ & Hx).
  apply extract_pattern_Some in Hx as [Hp _]. simpl. by apply int_of_port.
Qed.

Lemma event_ports_are_bounded_witness :
  exists evs,
    queue_contents 0
      (invoke_process os_chatty
         (set_output_callback (Some cb_continue) (new 0 circ1 real_socket))
         ["torsocks"; "curl"]%string world0).1.2
    = queue_contents 0 world0 ++ evs /\
    Forall (fun ev : Event => (0 <= ev.2.2 <= 99999)%Z) evs.
Proof.
  exact (event_ports_are_bounded os_chatty
           (set_output_callback (Some cb_continue) (new 0 circ1 real_socket))
           ["torsocks"; "curl"]%string world0 _ _ _ eq_refl).
Defined.

Example port_above_65535_is_enqueued :
  queue_contents 0
    (invoke_process os_chatty
       (set_output_callback (Some cb_continue) (new 0 circ1 real_socket))
       ["torsocks"; "curl"]%string world0).1.2
  = [(circ1, ("127.0.0.1"%string, 99999%Z))].
Proof. reflexivity. Qed.

Lemma match_here_shape fd host tail :
  is_fd fd -> is_plain_host host -> 1 <= span is_digit tail ->
  match_here pattern (lit_conn ++ fd ++ lit_orig ++ host ++ lit_colon ++ tail) None
  = Some (Some (take (Nat.min 5 (span is_digit tail)) tail)).
Proof.
  intros [Hfd Hfdn] [Hh Hhn] Htail. unfold pattern.
  cbn [match_here node_atom is_group].
  rewrite starts_with_app, drop_app_length.
  assert (greedy_max is_digit None (fd ++ lit_orig ++ host ++ lit_colon ++ tail)
          = length fd) as ->.
  { apply span_app_stop; done. }
  destruct (Nat.leb_spec 1 (length fd)) as [_|]; [|lia].
  apply backtrack_first. rewrite drop_app_length.
  rewrite starts_with_app, drop_app_length.
  assert (greedy_max not_colon None (host ++ lit_colon ++ tail) = length host) as ->.
  { apply span_app_stop; done. }
  destruct (Nat.leb_spec 1 (length host)) as [_|]; [|lia].
  apply backtrack_first. rewrite drop_app_length.
  rewrite starts_with_app, drop_app_length.
  cbn [greedy_max].
  destruct (Nat.leb_spec 1 (Nat.min 5 (span is_digit tail))) as [_|]; [|lia].
  by apply backtrack_first.
Qed.

Lemma match_here_needs_C c s cap :
  c <> "C"%char -> match_here pattern (c :: s) cap = None.
Proof.
  intros Hc. unfold pattern. cbn [match_here node_atom].
  assert (starts_with lit_conn (c :: s) = false) as ->; [|done].
  unfold lit_conn. cbn [b list_ascii_of_string starts_with].
  destruct (Ascii.eqb_spec "C" c) as [<-|]; done.
Qed.

Lemma match_here_nil cap : match_here pattern [] cap = None.
Proof. reflexivity. Qed.

(** X15.  On a line that starts with the disclosure text, what follows the
    colon after the host decides the result: the matcher returns the
    leading digits found there, at most five of them, and ignores whatever
    comes after; a longer run of digits is cut to its first five. *)
Theorem matcher_takes_at_most_five_digits fd host tail :
  is_fd fd -> is_plain_host host -> 1 <= span is_digit tail ->
  extract_pattern
    (lit_conn ++ fd ++ lit_orig ++ host ++ lit_colon ++ tail) pattern
  = Some (take (Nat.min 5 (span is_digit tail)) tail).
Proof.
  intros Hfd Hh Ht. unfold extract_pattern.
  pose proof (match_here_shape fd host tail Hfd Hh Ht) as H.
  destruct (lit_conn ++ fd ++ lit_orig ++ host ++ lit_colon ++ tail);
    cbn [search]; by rewrite H.
Qed.

Lemma matcher_takes_at_most_five_digits_witness :
  extract_pattern
    (lit_conn ++ b "7" ++ lit_orig ++ b "10.0.0.1" ++ lit_colon
     ++ b "543210 (tcp)") pattern
  = Some (b "54321").
Proof.
  refine (matcher_takes_at_most_five_digits (b "7") (b "10.0.0.1")
            (b "543210 (tcp)") _ _ _).
  - split; [repeat constructor | simpl; lia].
  - split; [repeat constructor | simpl; lia].
  - simpl; lia.
Defined.

(** X16.  Text in front of the disclosure text does not matter as long as
    it contains no capital C: the matcher gives the same result with and
    without it. *)
Theorem matcher_skips_leading_text pre s :
  Forall (fun c => c <> "C"%char) pre ->
  extract_pattern (pre ++ s) pattern = extract_pattern s pattern.
Proof.
  intros Hpre. unfold extract_pattern.
  induction Hpre as [|c pre Hc _ IH]; [done|].
  cbn [app search]. by rewrite match_here_needs_C.
Qed.

Lemma matcher_skips_leading_text_witness :
  extract_pattern (b "[debug] torsocks[123]: " ++ sample_line) pattern
  = extract_pattern sample_line pattern.
Proof.
  refine (matcher_skips_leading_text (b "[debug] torsocks[123]: ") sample_line _).
  repeat constructor; discriminate.
Defined.

(** ** Stripping *)

Lemma lstrip_head s c : head (lstrip s) = Some c -> is_space c = false.
Proof.
  induction s as [|d s IH]; simpl; [done|].
  destruct (is_space d) eqn:Hd; [done|]. simpl. by intros [= <-].
Qed.

Lemma lstrip_snoc u c :
  is_space c = false -> lstrip (u ++ [c]) = lstrip u ++ [c].
Proof.
  intros Hc. induction u as [|d u IH]; simpl.
  - by rewrite Hc.
  - by destruct (is_space d).
Qed.

Lemma rstrip_cons c t :
  is_space c = false -> rstrip (c :: t) = c :: rstrip t.
Proof.
  intros Hc. unfold rstrip. simpl.
  by rewrite lstrip_snoc, rev_app_distr.
Qed.

Lemma rstrip_last s c : last (rstrip s) = Some c -> is_space c = false.
Proof.
  unfold rstrip. intros H. apply (lstrip_head (rev s)).
  destruct (lstrip (rev s)) as [|d l]; [done|].
  simpl in H. by rewrite last_snoc in H.
Qed.

(** A stripped text neither begins nor ends with white space. *)
Lemma strip_ends s c :
  head (strip s) = Some c \/ last (strip s) = Some c -> is_space c = false.
Proof.
  unfold strip. intros [H|H]; [|by apply rstrip_last in H].
  destruct (lstrip s) as [|d t] eqn:E; [done|].
  assert (is_space d = false) as Hd by (apply (lstrip_head s); by rewrite E).
  rewrite rstrip_cons in H by done. simpl in H. congruence.
Qed.

(** X17.  The callback never sees the line terminator or any other white
    space at either end of a line: every line it is called with has been
    stripped, so it neither begins nor ends with a white-space character,
    and it is the stripped form of a line of the output. *)
Theorem callback_lines_are_stripped os self command w self' w' r :
  invoke_process os self command w = (self', w', r) ->
  exists acts,
    trace w' = trace w ++ acts /\
    forall line, In (ACallback line) acts ->
      (exists raw, In raw (lines_handled os self command w) /\ line = strip raw) /\
      (forall c, head line = Some c \/ last line = Some c -> is_space c = false).
Proof.
  intros Hinv. apply invoke_process_effects in Hinv as (Ht & _).
  eexists. split; [exact Ht|].
  intros line Hin. unfold actions_of in Hin.
  apply in_flat_map in Hin as (raw & Hraw & Hin).
  unfold line_actions in Hin. apply in_app_or in Hin as [Hin|Hin].
  { apply in_map_iff in Hin as (ev & [=] & _). }
  destruct Hin as [[= <-]|[]].
  split; [by exists raw|]. intros c. apply strip_ends.
Qed.

Lemma callback_lines_are_stripped_witness :
  exists acts,
    trace (invoke_process os_chatty
             (set_output_callback (Some cb_continue) (new 0 circ1 real_socket))
             ["torsocks"; "curl"]%string world0).1.2
    = trace world0 ++ acts /\
    forall line, In (ACallback line) acts ->
      (exists raw,
         In raw (lines_handled os_chatty
                   (set_output_callback (Some cb_continue)
                      (new 0 circ1 real_socket))
                   ["torsocks"; "curl"]%string world0) /\
         line = strip raw) /\
      (forall c, head line = Some c \/ last line = Some c -> is_space c = false).
Proof.
  exact (callback_lines_are_stripped os_chatty
           (set_output_callback (Some cb_continue) (new 0 circ1 real_socket))
           ["torsocks"; "curl"]%string world0 _ _ _ eq_refl).
Defined.

Example blank_line_is_delivered_empty :
  trace (invoke_process os_chatty
           (set_output_callback (Some cb_continue) (new 0 circ1 real_socket))
           ["torsocks"; "curl"]%string world0).1.2
  = [APut 0 (circ1, ("127.0.0.1"%string, 99999%Z)) real_socket;
     ACallback (b "Connection on fd 3 originating from 10.0.0.9:99999");
     ACallback [];
     ACallback (b "done")].
Proof. reflexivity. Qed.

(** X18.  [invoke_process] itself leaves [socket.socket] as it found it,
    however the run ends: if the callback does not rebind it, it is bound
    after the call to what it was bound to before. *)
Theorem invoke_process_keeps_socket_binding os self command w self' w' r :
  match output_callback self with Some cb => no_rebind cb | None => True end ->
  invoke_process os self command w = (self', w', r) ->
  socket_socket w' = socket_socket w.
Proof.
  intros Hcb Hinv.
  apply invoke_process_frame in Hinv as (_ & _ & _ & Hs & _).
  apply Hs. intros cb E. by rewrite E in Hcb.
Qed.

Lemma invoke_process_keeps_socket_binding_witness :
  socket_socket
    (invoke_process os_three_lines
       (set_output_callback (Some cb_socks_error) (new 0 circ1 real_socket))
       ["torsocks"; "curl"]%string patched_world).1.2
  = torsocket.
Proof.
  refine (invoke_process_keeps_socket_binding os_three_lines
            (set_output_callback (Some cb_socks_error) (new 0 circ1 real_socket))
            ["torsocks"; "curl"]%string patched_world _ _ _ _ _).
  - intros hist line. reflexivity.
  - reflexivity.
Defined.

(** ** Stripping and matching *)

Lemma is_space_not_digit c : is_space c = true -> is_digit c = false.
Proof.
  unfold is_space, is_digit. intros H.
  apply orb_prop in H as [H|[H1 H2]%andb_prop].
  - apply Nat.eqb_eq in H. rewrite H. reflexivity.
  - apply Nat.leb_le in H1, H2.
    destruct (Nat.leb_spec 48 (nat_of_ascii c)); [lia|done].
Qed.

Lemma is_space_not_C c : is_space c = true -> c <> "C"%char.
Proof. intros H ->. discriminate H. Qed.

Lemma span_snoc_stop cls t c :
  cls c = false -> span cls (t ++ [c]) = span cls t.
Proof.
  intros Hc. induction t as [|d t IH]; simpl.
  - by rewrite Hc.
  - destruct (cls d); [by rewrite IH|done].
Qed.

Lemma match_here_pattern_inv u r :
  match_here pattern u None = Some r ->
  exists fd host tail,
    u = lit_conn ++ fd ++ lit_orig ++ host ++ lit_colon ++ tail /\
    is_fd fd /\ is_plain_host host /\ 1 <= span is_digit tail.
Proof.
  intros H. apply match_here_sound, derives_pattern_inv in H
    as (fd & host & port & rest & -> & Hfd & Hh & [Hp Hlen] & _).
  exists fd, host, (port ++ rest). unfold disclosure_line.
  rewrite <- !app_assoc. repeat split; try done; try apply Hfd; try apply Hh.
  pose proof (span_app_ge is_digit port rest Hp). lia.
Qed.

Lemma match_here_snoc_space u c :
  is_space c = true ->
  match_here pattern (u ++ [c]) None = match_here pattern u None.
Proof.
  intros Hc. pose proof (is_space_not_digit c Hc) as Hd.
  destruct (match_here pattern u None) as [r|] eqn:E1.
  - destruct (match_here_pattern_inv _ _ E1)
      as (fd & host & tail & -> & Hfd & Hh & Ht).
    rewrite match_here_shape in E1 by done. rewrite <- E1.
    rewrite <- !app_assoc.
    rewrite match_here_shape by (try done; by rewrite span_snoc_stop).
    rewrite span_snoc_stop by done.
    rewrite take_app_le; [done|].
    pose proof (span_le is_digit tail). lia.
  - destruct (match_here pattern (u ++ [c]) None) as [r|] eqn:E2; [|done].
    destruct (match_here_pattern_inv _ _ E2)
      as (fd & host & tail & Hu & Hfd & Hh & Ht).
    destruct tail as [|x tl _] using rev_ind; [simpl in Ht; lia|].
    rewrite !app_assoc in Hu. apply app_inj_tail in Hu as [-> <-].
    rewrite span_snoc_stop in Ht by done.
    rewrite <- !app_assoc in E1. rewrite match_here_shape in E1; done.
Qed.

Lemma search_snoc_space t c :
  is_space c = true -> search pattern (t ++ [c]) = search pattern t.
Proof.
  intros Hc. induction t as [|a t IH].
  - cbn [app search]. rewrite match_here_needs_C by (by apply is_space_not_C).
    by rewrite match_here_nil.
  - cbn [app search].
    change (a :: t ++ [c]) with ((a :: t) ++ [c]).
    by rewrite match_here_snoc_space, IH.
Qed.

Lemma search_app_spaces t ws :
  Forall (fun c => is_space c = true) ws ->
  search pattern (t ++ ws) = search pattern t.
Proof.
  intros Hws. revert t. induction Hws as [|c ws Hc _ IH]; intros t.
  - by rewrite app_nil_r.
  - change (c :: ws) with ([c] ++ ws). rewrite app_assoc, IH.
    by apply search_snoc_space.
Qed.

Lemma search_lstrip s : search pattern (lstrip s) = search pattern s.
Proof.
  induction s as [|c s IH]; [done|]. cbn [lstrip].
  destruct (is_space c) eqn:Hc; [|done].
  cbn [search]. rewrite match_here_needs_C by (by apply is_space_not_C). done.
Qed.

Lemma lstrip_split u :
  exists ws, u = ws ++ lstrip u /\ Forall (fun c => is_space c = true) ws.
Proof.
  induction u as [|c u (ws & Hu & Hws)]; simpl.
  - by exists [].
  - destruct (is_space c) eqn:Hc.
    + exists (c :: ws). split; [simpl; congruence | by constructor].
    + by exists [].
Qed.

Lemma rstrip_split s :
  exists ws, s = rstrip s ++ ws /\ Forall (fun c => is_space c = true) ws.
Proof.
  destruct (lstrip_split (rev s)) as (ws & Hs & Hws).
  exists (rev ws). split; [|by apply Forall_rev].
  unfold rstrip. rewrite <- rev_app_distr, <- Hs. by rewrite rev_involutive.
Qed.

(** X19.  Stripping a line before matching changes nothing: the matcher
    finds the same port, or none, in the line as it was read and in its
    stripped form. *)
Theorem strip_does_not_change_match raw :
  extract_pattern (strip raw) pattern = extract_pattern raw pattern.
Proof.
  unfold extract_pattern, strip.
  destruct (rstrip_split (lstrip raw)) as (ws & Hs & Hws).
  rewrite <- (search_lstrip raw). rewrite Hs at 2.
  by rewrite search_app_spaces.
Qed.
